(** * Real-Time Process Monitor: a shallow embedding of [process_monitor.py]

    The development follows the source file top to bottom:

    - [Py]: the Python builtins the program relies on (exceptions and
      [try]/[except], [str.lower], [str()] of an int, float arithmetic on
      binary64, [format(x, '.1f')], [float()], the stable [list.sort]);
    - [Psutil]: what one call of the metrics backend answers;
    - [Tk]: the Treeview widget as the program uses it (rows, item
      identifiers, [insert], [delete], [move], [set], headings);
    - [Monitor]: the methods of [ProcessMonitor] ([update_loop],
      [check_updates], [sort_column], [terminate_process]).

    Python floats are IEEE binary64 values, modelled by Rocq's primitive
    floats; their order is reasoned about through [SpecFloat]. *)

From Stdlib Require Import ZArith List String Ascii Bool Lia.
From Stdlib Require Import Floats DecimalString.
From Stdlib Require Import Permutation Sorted.
Import ListNotations.

Set Warnings "-inexact-float".
Local Open Scope Z_scope.
Local Open Scope string_scope.

(* ================================================================== *)
(** * Python builtins *)
(* ================================================================== *)

Module Py.

(** The exception classes the program names in an [except] clause, the ones
    its builtins raise, and every other subclass of [Exception]. *)
Inductive exn_class : Type :=
| NoSuchProcess
| AccessDenied
| KeyError
| AttributeError
| ValueError
| ZeroDivisionError
| OverflowError
| TclError
| OtherException.

Definition exn_class_eqb (a b : exn_class) : bool :=
  match a, b with
  | NoSuchProcess, NoSuchProcess | AccessDenied, AccessDenied
  | KeyError, KeyError | AttributeError, AttributeError
  | ValueError, ValueError | ZeroDivisionError, ZeroDivisionError
  | OverflowError, OverflowError | TclError, TclError
  | OtherException, OtherException => true
  | _, _ => false
  end.

(** An exception instance: its class and [str(e)]. *)
Record exn : Type := Exn { exn_cls : exn_class; exn_str : string }.

(** The outcome of evaluating an expression that may raise. *)
Inductive result (A : Type) : Type :=
| Ok (a : A)
| Raise (e : exn).
Arguments Ok {A} a.
Arguments Raise {A} e.

Definition bind {A B : Type} (r : result A) (k : A -> result B) : result B :=
  match r with
  | Ok a => k a
  | Raise e => Raise e
  end.

Notation "x <- c1 ;; c2" := (bind c1 (fun x => c2))
  (at level 61, c1 at next level, right associativity).

(** [except (C1, C2, ...)]: does the clause catch an exception of class [c]? *)
Definition catches (classes : list exn_class) (c : exn_class) : bool :=
  existsb (exn_class_eqb c) classes.

(** [try: body  except classes: handler]. *)
Definition try_except {A : Type} (body : result A) (classes : list exn_class)
    (handler : exn -> result A) : result A :=
  match body with
  | Ok a => Ok a
  | Raise e => if catches classes (exn_cls e) then handler e else Raise e
  end.

(** A [for] loop whose body may raise: the first exception leaves the loop. *)
Fixpoint for_each {A S : Type} (body : S -> A -> result S) (xs : list A) (s : S)
    : result S :=
  match xs with
  | [] => Ok s
  | x :: xs' => bind (body s x) (for_each body xs')
  end.

(** ** Strings *)

(** [str.lower] on the ASCII letters; names are byte strings, and no byte
    outside the ASCII letters maps onto a letter of the two sentinels. *)
Definition lower_ascii (c : ascii) : ascii :=
  let n := N_of_ascii c in
  if ((65 <=? n) && (n <=? 90))%N then ascii_of_N (n + 32) else c.

Fixpoint lower (s : string) : string :=
  match s with
  | EmptyString => EmptyString
  | String c s' => String (lower_ascii c) (lower s')
  end.

(** [x in [s1, s2, ...]] on strings. *)
Definition str_in (x : string) (l : list string) : bool :=
  existsb (String.eqb x) l.

(** [str(n)] and the [{n}] of an f-string, for an int. *)
Definition str_int (n : Z) : string :=
  DecimalString.NilZero.string_of_int (Z.to_int n).

(** [(a1, a2) < (b1, b2)] on pairs of strings: lexicographic, each string
    compared code unit by code unit. *)
Definition pair_lt (a b : string * string) : bool :=
  match String.compare (fst a) (fst b) with
  | Lt => true
  | Eq => String.ltb (snd a) (snd b)
  | Gt => false
  end.

(** ** list.sort *)

Section Sort.
Context {A K : Type}.
Variable lt : K -> K -> bool.

(** Insertion of a keyed element in front of a sorted list: it goes before
    the first element that is not smaller, so equal keys keep their order. *)
Fixpoint insert_sorted (x : K * A) (l : list (K * A)) : list (K * A) :=
  match l with
  | [] => [x]
  | y :: l' => if lt (fst y) (fst x) then y :: insert_sorted x l' else x :: l
  end.

(** Stable ascending sort of a keyed list, with [<] as only comparison.  On
    keys that [<] orders (floats other than NaN, tuples of strings) a stable
    sort has one possible result, so the algorithm does not matter. *)
Definition sort_keyed (l : list (K * A)) : list (K * A) :=
  fold_right insert_sorted [] l.

(** [l.sort(key=key, reverse=reverse)] where the keys are already computed:
    with [reverse] the list is reversed, sorted and reversed again, which keeps
    elements with equal keys in their original order. *)
Definition sort_decorated (reverse : bool) (l : list (K * A)) : list (K * A) :=
  if reverse then rev (sort_keyed (rev l)) else sort_keyed l.

(** The keys are computed once for every element before any comparison; a
    key that raises leaves the list as it was. *)
Fixpoint decorate (key : A -> result K) (l : list A) : result (list (K * A)) :=
  match l with
  | [] => Ok []
  | x :: l' =>
      bind (key x) (fun k => bind (decorate key l') (fun d => Ok ((k, x) :: d)))
  end.

Definition sort (key : A -> result K) (reverse : bool) (l : list A)
    : result (list A) :=
  bind (decorate key l) (fun d => Ok (map snd (sort_decorated reverse d))).

End Sort.

(** ** Floats *)

Definition is_nan (x : float) : bool := PrimFloat.is_nan x.

(** [float(n)] for an int: the nearest binary64, [OverflowError] out of range. *)
Definition float_of_int (n : Z) : result float :=
  let f := SF2Prim (binary_normalize prec emax n 0 false) in
  if PrimFloat.is_finite f then Ok f
  else Raise (Exn OverflowError "int too large to convert to float").

(** [x / n] for a float [x] and an int [n]. *)
Definition float_div_int (x : float) (n : Z) : result float :=
  bind (float_of_int n) (fun d =>
    if PrimFloat.eqb d 0%float
    then Raise (Exn ZeroDivisionError "float division by zero")
    else Ok (x / d)%float).

(** An int as an exact (not normalised) binary float, for correctly rounded
    quotients of ints. *)
Definition SF_of_int (n : Z) : spec_float :=
  match n with
  | Z0 => S754_zero false
  | Zpos p => S754_finite false p 0
  | Zneg p => S754_finite true p 0
  end.

(** [a / b] for two ints: the binary64 nearest to the exact quotient. *)
Definition int_truediv (a b : Z) : result float :=
  if (b =? 0)%Z then Raise (Exn ZeroDivisionError "division by zero")
  else
    let f := SF2Prim (SFdiv prec emax (SF_of_int a) (SF_of_int b)) in
    if PrimFloat.is_infinity f
    then Raise (Exn OverflowError "integer division result too large for a float")
    else Ok f.

(** The integer nearest to [num / den], ties to even ([0 <= num], [0 < den]). *)
Definition round_half_even (num den : Z) : Z :=
  let q := num / den in
  match (2 * (num mod den) ?= den)%Z with
  | Lt => q
  | Gt => q + 1
  | Eq => if Z.even q then q else q + 1
  end.

(** [format(x, '.1f')], the [{x:.1f}] of an f-string: the exact binary value
    rounded to one decimal, ties to even. *)
Definition format_1f (x : float) : string :=
  match Prim2SF x with
  | S754_nan => "nan"
  | S754_infinity s => if s then "-inf" else "inf"
  | S754_zero s => if s then "-0.0" else "0.0"
  | S754_finite s m e =>
      let tenths :=
        if (0 <=? e)%Z then Zpos m * 2 ^ e * 10
        else round_half_even (Zpos m * 10) (2 ^ (- e)) in
      (if s then "-" else "") ++ str_int (tenths / 10) ++ "."
        ++ str_int (tenths mod 10)
  end.

(** ** float() of a string *)

Definition is_space (c : ascii) : bool :=
  let n := N_of_ascii c in ((9 <=? n) && (n <=? 13) || (n =? 32))%N.

Fixpoint lstrip (s : list ascii) : list ascii :=
  match s with
  | c :: s' => if is_space c then lstrip s' else s
  | [] => []
  end.

Definition strip (s : list ascii) : list ascii :=
  rev (lstrip (rev (lstrip s))).

Definition digit_of (c : ascii) : option Z :=
  let n := N_of_ascii c in
  if ((48 <=? n) && (n <=? 57))%N then Some (Z.of_N n - 48) else None.

(** The rest of a digit part after its first digit: digits, each optionally
    preceded by one underscore.  Returns the value, the number of digits
    read and the unread input. *)
Fixpoint digits_rest (s : list ascii) (acc : Z) (count : nat)
    : Z * nat * list ascii :=
  match s with
  | c :: s' =>
      match digit_of c with
      | Some d => digits_rest s' (acc * 10 + d) (S count)
      | None =>
          if Ascii.eqb c "_" then
            match s' with
            | c' :: s'' =>
                match digit_of c' with
                | Some d => digits_rest s'' (acc * 10 + d) (S count)
                | None => (acc, count, s)
                end
            | [] => (acc, count, s)
            end
          else (acc, count, s)
      end
  | [] => (acc, count, s)
  end.

(** A digit part: at least one digit. *)
Definition digitpart (s : list ascii) (acc : Z) : option (Z * nat * list ascii) :=
  match s with
  | c :: s' =>
      match digit_of c with
      | Some d => Some (digits_rest s' (acc * 10 + d) 1%nat)
      | None => None
      end
  | [] => None
  end.

(** [number]: [digitpart ["." [digitpart]]] or ["." digitpart]; the result is
    the integer written by all the digits and the count of those after the
    point. *)
Definition number (s : list ascii) : option (Z * nat * list ascii) :=
  match digitpart s 0 with
  | Some (n, _, rest) =>
      match rest with
      | c :: rest' =>
          if Ascii.eqb c "." then
            match digitpart rest' n with
            | Some (n', k, rest'') => Some (n', k, rest'')
            | None => Some (n, 0%nat, rest')
            end
          else Some (n, 0%nat, rest)
      | [] => Some (n, 0%nat, [])
      end
  | None =>
      match s with
      | c :: rest' => if Ascii.eqb c "." then digitpart rest' 0 else None
      | [] => None
      end
  end.

(** [exponent]: [("e" | "E") [sign] digitpart], or nothing. *)
Definition exponent (s : list ascii) : option (Z * list ascii) :=
  match s with
  | [] => Some (0, [])
  | c :: s' =>
      if Ascii.eqb (lower_ascii c) "e" then
        let '(neg, s'') :=
          match s' with
          | c' :: t => if Ascii.eqb c' "-" then (true, t)
                       else if Ascii.eqb c' "+" then (false, t) else (false, s')
          | [] => (false, s')
          end in
        match digitpart s'' 0 with
        | Some (e, _, rest) => Some (if neg then - e else e, rest)
        | None => None
        end
      else Some (0, s)
  end.

(** The binary64 nearest to [(-1)^neg * n * 10^e10], for [0 <= n]. *)
Definition float_of_decimal (neg : bool) (n e10 : Z) : float :=
  if (n =? 0)%Z then (if neg then (-0)%float else 0%float)
  else
    let '(num, den) :=
      if (0 <=? e10)%Z then (n * 10 ^ e10, 1) else (n, 10 ^ (- e10)) in
    let f := SF2Prim (SFdiv prec emax (SF_of_int num) (SF_of_int den)) in
    if neg then (- f)%float else f.

(** [float(s)] for a string [s]: surrounding whitespace, a sign, then
    [inf], [infinity], [nan] in any case or a decimal number (single
    underscores between digits allowed) with an optional exponent;
    [ValueError] for anything else.  Strings are byte strings here, so only the
    ASCII digits and blanks are known. *)
Definition float_of_str (s : string) : result float :=
  let bad := Raise (Exn ValueError "could not convert string to float") in
  let t := strip (list_ascii_of_string s) in
  let '(neg, body) :=
    match t with
    | c :: t' => if Ascii.eqb c "-" then (true, t')
                 else if Ascii.eqb c "+" then (false, t') else (false, t)
    | [] => (false, t)
    end in
  let word := lower (string_of_list_ascii body) in
  if str_in word ["inf"; "infinity"] then
    Ok (if neg then neg_infinity else infinity)
  else if String.eqb word "nan" then Ok nan
  else
    match number body with
    | Some (n, k, rest) =>
        match exponent rest with
        | Some (e, []) => Ok (float_of_decimal neg n (e - Z.of_nat k))
        | _ => bad
        end
    | None => bad
    end.

End Py.

(* ================================================================== *)
(** * The metrics backend *)
(* ================================================================== *)

Module Psutil.
Import Py.

(** [proc.info['memory_info']]: only [rss] is read. *)
Record pmem : Type := Pmem { rss : Z }.

(** [proc.info], the dict of the five attributes asked for.  [memory_info]
    may be missing: the renderer guards its use with
    [except (KeyError, AttributeError)]. *)
Record pinfo : Type := Pinfo {
  pid : Z;
  name : string;
  cpu_percent : float;
  memory_info : option pmem;
  status : string
}.

(** [pinfo['cpu_percent'] = c]. *)
Definition set_cpu_percent (p : pinfo) (c : float) : pinfo :=
  Pinfo (pid p) (name p) c (memory_info p) (status p).

(** [psutil.virtual_memory()]. *)
Record svmem : Type := Svmem { total : Z; used : Z; percent : float }.

(** What the backend answers during one cycle of the sampler: each call
    either returns or raises; [process_iter] yields the processes, and for
    each of them the outcome of the first thing the loop does with it, reading
    [proc.info] and its name (lines 103-104): the record, or the exception
    raised there. *)
Record reading : Type := Reading {
  r_cpu_percent : result float;
  r_virtual_memory : result svmem;
  r_process_iter : result (list (result pinfo))
}.

(** A process whose attributes the backend is denied.  [process_iter] called
    with a list of attributes reads them itself and catches AccessDenied: the
    process is yielded with None for each denied attribute, [proc.info]
    returns that dict, and the first use of the name, [.lower()] at line 104,
    raises on None. *)
Definition access_denied_info : result pinfo :=
  Raise (Exn AttributeError "'NoneType' object has no attribute 'lower'").

End Psutil.

(* ================================================================== *)
(** * The Treeview widget *)
(* ================================================================== *)

Module Tk.
Import Py.

(** The five columns declared at line 64. *)
Inductive column : Type := PID | Name | CPU | Memory | Status.

Definition column_eqb (a b : column) : bool :=
  match a, b with
  | PID, PID | Name, Name | CPU, CPU | Memory, Memory | Status, Status => true
  | _, _ => false
  end.

(** The [values] tuple given to [insert]: the pid as an int, four strings. *)
Record values : Type := Values {
  v_pid : Z;
  v_name : string;
  v_cpu : string;
  v_memory : string;
  v_status : string
}.

(** An item is known by the serial number the widget gave it. *)
Definition iid : Type := nat.

(** The text of a cell, as the widget shows it and as [set] returns it. *)
Definition cell (v : values) (col : column) : string :=
  match col with
  | PID => str_int (v_pid v)
  | Name => v_name v
  | CPU => v_cpu v
  | Memory => v_memory v
  | Status => v_status v
  end.

(** The five cells of a row, left to right. *)
Definition cells (v : values) : list string :=
  map (cell v) [PID; Name; CPU; Memory; Status].

Definition hex_digit (n : N) : ascii :=
  if (n <? 10)%N then ascii_of_N (48 + n) else ascii_of_N (55 + n).

Fixpoint hex_pos (p : positive) (fuel : nat) (acc : string) : string :=
  match fuel with
  | O => acc
  | S fuel' =>
      let acc' := String (hex_digit (Npos p mod 16)) acc in
      match (Npos p / 16)%N with
      | N0 => acc'
      | Npos q => hex_pos q fuel' acc'
      end
  end.

(** [n] zeros in front of [s]. *)
Fixpoint zeros (n : nat) (s : string) : string :=
  match n with
  | O => s
  | S n' => String "0" (zeros n' s)
  end.

Definition zero_pad (width : nat) (s : string) : string :=
  zeros (width - String.length s) s.

(** The item identifier as a string: [I] and the serial number in upper-case
    hexadecimal, at least three digits. *)
Definition iid_str (k : iid) : string :=
  let digits :=
    match N.of_nat k with
    | N0 => "0"
    | Npos p => hex_pos p (Pos.size_nat p) ""
    end in
  String "I" (zero_pad 3 digits).

(** The widget: its rows in display order, the serial number of the last
    item created, the selected items as [tree.selection()] returns them, and
    the command bound to each heading (which [sort_column] call a click
    makes).  The widget keeps a flag on each selected item and [selection]
    lists the flagged items from the top of the table down, so [selected] is
    kept in display order. *)
Record treeview : Type := Treeview {
  children : list (iid * values);
  serial : nat;
  selected : list iid;
  heading_command : column -> option (column * bool)
}.

Definition get_children (t : treeview) : list iid := map fst (children t).

(** The items of [rows] that are among [ks], from the top of the table down:
    what [selection] returns when the items of [ks] carry the flag. *)
Definition flagged (ks : list iid) (rows : list (iid * values)) : list iid :=
  filter (fun k => existsb (Nat.eqb k) ks) (map fst rows).

Definition find_item (t : treeview) (k : iid) : option values :=
  option_map snd (find (fun it => Nat.eqb (fst it) k) (children t)).

Definition no_item {A : Type} (k : iid) : result A :=
  Raise (Exn TclError ("Item " ++ iid_str k ++ " not found")).

(** [tree.delete(k)]: the item leaves the rows and the selection. *)
Definition delete (t : treeview) (k : iid) : result treeview :=
  match find_item t k with
  | None => no_item k
  | Some _ =>
      Ok (Treeview (filter (fun it => negb (Nat.eqb (fst it) k)) (children t))
            (serial t)
            (filter (fun k' => negb (Nat.eqb k' k)) (selected t))
            (heading_command t))
  end.

(** [tree.insert("", "end", values=v)]. *)
Definition insert_end (t : treeview) (v : values) : treeview :=
  Treeview (children t ++ [(S (serial t), v)])%list (S (serial t)) (selected t)
    (heading_command t).

(** [tree.set(k, col)]. *)
Definition set (t : treeview) (k : iid) (col : column) : result string :=
  match find_item t k with
  | None => no_item k
  | Some v => Ok (cell v col)
  end.

(** [tree.item(k)['values']]. *)
Definition item_values (t : treeview) (k : iid) : result values :=
  match find_item t k with
  | None => no_item k
  | Some v => Ok v
  end.

(** [tree.move(k, "", index)]: the item is detached and put back at position
    [index] among the remaining rows (at the end when there are fewer).  The
    flags stay on their items, and the selection lists them in the new
    order. *)
Definition move (t : treeview) (k : iid) (index : nat) : result treeview :=
  match find_item t k with
  | None => no_item k
  | Some v =>
      let others := filter (fun it => negb (Nat.eqb (fst it) k)) (children t) in
      let rows := (firstn index others ++ (k, v) :: skipn index others)%list in
      Ok (Treeview rows (serial t) (flagged (selected t) rows) (heading_command t))
  end.

(** [tree.heading(col, command=lambda: self.sort_column(c, reverse))]. *)
Definition heading (t : treeview) (col : column) (command : column * bool)
    : treeview :=
  Treeview (children t) (serial t) (selected t)
    (fun c => if column_eqb c col then Some command else heading_command t c).

End Tk.

(* ================================================================== *)
(** * The program: class ProcessMonitor *)
(* ================================================================== *)

Module Monitor.
Import Py Psutil Tk.

(** ** The sampler thread *)

(** What [update_loop] puts on the queue: [(cpu_percent, memory, processes)]. *)
Definition snapshot : Type := float * svmem * list pinfo.

Definition snapshot_processes (s : snapshot) : list pinfo := snd s.

(** The names filtered out at line 104. *)
Definition idle_names : list string := ["system idle process"; "idle"].

(** The slice bound of line 111. *)
Definition top_limit : nat := 50.

(** Lines 102-108, the body of the [for] over [process_iter]: [proc] is the
    outcome of reading [proc.info]; [processes] is the list built so far. *)
Definition read_process (num_cores : Z) (processes : list pinfo)
    (proc : result pinfo) : result (list pinfo) :=
  try_except
    (pinfo <- proc ;;
     if negb (str_in (lower (name pinfo)) idle_names) then
       c <- float_div_int (cpu_percent pinfo) num_cores ;;
       Ok (processes ++ [set_cpu_percent pinfo c])%list
     else Ok processes)
    [NoSuchProcess; AccessDenied]
    (fun _ => Ok processes).

(** Lines 100-108. *)
Definition collect_processes (num_cores : Z) (procs : list (result pinfo))
    : result (list pinfo) :=
  for_each (read_process num_cores) procs [].

(** Lines 110-111 : sort by [cpu_percent], largest first; keep the top. *)
Definition sort_and_limit (processes : list pinfo) : result (list pinfo) :=
  sorted <- sort PrimFloat.ltb (fun x => Ok (cpu_percent x)) true processes ;;
  Ok (firstn top_limit sorted).

(** Lines 97-111: the snapshot of one cycle. *)
Definition take_snapshot (num_cores : Z) (b : reading) : result snapshot :=
  cpu <- r_cpu_percent b ;;
  memory <- r_virtual_memory b ;;
  procs <- r_process_iter b ;;
  processes <- collect_processes num_cores procs ;;
  processes <- sort_and_limit processes ;;
  Ok (cpu, memory, processes).

(** What the thread does to the world. *)
Inductive sampler_event : Type :=
| Put (s : snapshot)
| Sleep (seconds : float)
| Print (line : string).

(** [time.sleep(d)]. *)
Definition sleep (d : float) : result sampler_event :=
  if is_nan d then Raise (Exn ValueError "Invalid value NaN (not a number)")
  else
    let ns := (d * 1e9)%float in
    if (ns <? -9223372036854775808)%float || (9223372036854775808 <=? ns)%float
    then Raise (Exn OverflowError "timestamp too large to convert to C _PyTime_t")
    else if (d <? 0)%float
    then Raise (Exn ValueError "sleep length must be non-negative")
    else Ok (Sleep d).

(** What one iteration of the [while] observes: the flag [self.running] at
    the top, the answers of the backend, and what [self.refresh_rate.get()]
    returns when it is called. *)
Record cycle : Type := Cycle {
  c_running : bool;
  c_backend : reading;
  c_refresh_rate : result float
}.

(** Lines 97-115, the body of the [try]: the events it caused and how it
    ended. *)
Definition try_body (num_cores : Z) (c : cycle)
    : list sampler_event * result unit :=
  match take_snapshot num_cores (c_backend c) with
  | Raise e => ([], Raise e)
  | Ok s =>
      match (d <- c_refresh_rate c ;; sleep d) with
      | Ok ev => ([Put s; ev], Ok tt)
      | Raise e => ([Put s], Raise e)
      end
  end.

(** Lines 96-119: one iteration, with its [except Exception] clause. *)
Definition iteration (num_cores : Z) (c : cycle) : list sampler_event :=
  let '(events, r) := try_body num_cores c in
  match r with
  | Ok _ => events
  | Raise e =>
      (events ++ [Print ("Error in update thread: " ++ exn_str e); Sleep 1])%list
  end.

(** Lines 95-119: the loop over the iterations whose observations are given.
    The boolean tells whether the loop was left. *)
Fixpoint update_loop (num_cores : Z) (cs : list cycle)
    : list sampler_event * bool :=
  match cs with
  | [] => ([], false)
  | c :: cs' =>
      if c_running c then
        let '(events, returned) := update_loop num_cores cs' in
        ((iteration num_cores c ++ events)%list, returned)
      else ([], true)
  end.

(** ** The interface *)

(** What the main thread does to the world besides its widgets. *)
Inductive gui_event : Type :=
| Printed (line : string)
| ShowWarning (title message : string)
| AskYesNo (title message : string)
| ShowInfo (title message : string)
| ShowError (title message : string)
| OsTerminate (pid : Z)
| After (ms : Z).

(** The attributes of [self] that the methods read or write. *)
Record app : Type := App {
  num_cores : Z;
  update_queue : list snapshot;
  cpu_label : string;
  memory_label : string;
  process_count_label : string;
  tree : treeview;
  trace : list gui_event
}.

(** A method of the interface: it changes [self] and returns or raises; what
    it changed before raising stays changed. *)
Definition M (A : Type) : Type := app -> result A * app.

Definition ret {A : Type} (x : A) : M A := fun a => (Ok x, a).

Definition mbind {A B : Type} (m : M A) (k : A -> M B) : M B :=
  fun a =>
    match m a with
    | (Ok x, a') => k x a'
    | (Raise e, a') => (Raise e, a')
    end.

Notation "x <~ c1 ;; c2" := (mbind c1 (fun x => c2))
  (at level 61, c1 at next level, right associativity).
Notation "c1 ;;; c2" := (mbind c1 (fun _ => c2))
  (at level 61, right associativity).

Definition lift {A : Type} (r : result A) : M A := fun a => (r, a).

Definition get {A : Type} (f : app -> A) : M A := fun a => (Ok (f a), a).

Definition emit (e : gui_event) : M unit :=
  fun a =>
    (Ok tt, App (num_cores a) (update_queue a) (cpu_label a) (memory_label a)
              (process_count_label a) (tree a) (trace a ++ [e])%list).

(** [self.update_queue.put(s)], as the interface comes to see it. *)
Definition put (s : snapshot) : M unit :=
  fun a =>
    (Ok tt, App (num_cores a) (update_queue a ++ [s])%list (cpu_label a)
              (memory_label a) (process_count_label a) (tree a) (trace a)).

(** [self.update_queue.get_nowait()] leaves [q] in the queue. *)
Definition set_queue (q : list snapshot) : M unit :=
  fun a =>
    (Ok tt, App (num_cores a) q (cpu_label a) (memory_label a)
              (process_count_label a) (tree a) (trace a)).

Definition set_cpu_label (text : string) : M unit :=
  fun a =>
    (Ok tt, App (num_cores a) (update_queue a) text (memory_label a)
              (process_count_label a) (tree a) (trace a)).

Definition set_memory_label (text : string) : M unit :=
  fun a =>
    (Ok tt, App (num_cores a) (update_queue a) (cpu_label a) text
              (process_count_label a) (tree a) (trace a)).

Definition set_process_count_label (text : string) : M unit :=
  fun a =>
    (Ok tt, App (num_cores a) (update_queue a) (cpu_label a) (memory_label a)
              text (tree a) (trace a)).

Definition set_tree (t : treeview) : M unit :=
  fun a =>
    (Ok tt, App (num_cores a) (update_queue a) (cpu_label a) (memory_label a)
              (process_count_label a) t (trace a)).

(** A call on the widget that returns a new widget or raises. *)
Definition on_tree (f : treeview -> result treeview) : M unit :=
  t <~ get tree ;; t' <~ lift (f t) ;; set_tree t'.

(** [try: body  except classes as e: handler]. *)
Definition mtry {A : Type} (body : M A) (classes : list exn_class)
    (handler : exn -> M A) : M A :=
  fun a =>
    match body a with
    | (Ok x, a') => (Ok x, a')
    | (Raise e, a') =>
        if catches classes (exn_cls e) then handler e a' else (Raise e, a')
    end.

(** [try: body  except Exception as e: handler]. *)
Definition mtry_Exception {A : Type} (body : M A) (handler : exn -> M A) : M A :=
  fun a =>
    match body a with
    | (Ok x, a') => (Ok x, a')
    | (Raise e, a') => handler e a'
    end.

Fixpoint mfor {A : Type} (xs : list A) (body : A -> M unit) : M unit :=
  match xs with
  | [] => ret tt
  | x :: xs' => body x ;;; mfor xs' body
  end.

Fixpoint mmap {A B : Type} (f : A -> M B) (xs : list A) : M (list B) :=
  match xs with
  | [] => ret []
  | x :: xs' => y <~ f x ;; ys <~ mmap f xs' ;; ret (y :: ys)
  end.

(** *** check_updates *)

(** Lines 138-149: one row of the table, or a printed line when the record
    has no [memory_info]. *)
Definition insert_process (proc : pinfo) : M unit :=
  mtry
    (info <~ lift (match memory_info proc with
                   | Some m => Ok m
                   | None => Raise (Exn AttributeError
                               "'NoneType' object has no attribute 'rss'")
                   end) ;;
     memory_mb <~ lift (int_truediv (rss info) (1024 * 1024)) ;;
     on_tree (fun t => Ok (insert_end t
       (Values (pid proc) (name proc) (format_1f (cpu_percent proc))
          (format_1f memory_mb) (status proc)))))
    [KeyError; AttributeError]
    (fun e => emit (Printed ("Error processing process data: " ++ exn_str e))).

(** Lines 128-130: the three labels. *)
Definition cpu_text (cores : Z) (cpu : float) : string :=
  "CPU: " ++ format_1f cpu ++ "% (Cores: " ++ str_int cores ++ ")".

Definition memory_text (memory : svmem) : string :=
  "Memory: " ++ format_1f (percent memory) ++ "% ("
    ++ str_int (used memory / (1024 * 1024)) ++ " MB / "
    ++ str_int (total memory / (1024 * 1024)) ++ " MB)".

Definition process_count_text (processes : list pinfo) : string :=
  "Processes: " ++ str_int (Z.of_nat (List.length processes)).

(** Lines 125-149: what is done with one snapshot taken from the queue. *)
Definition show_snapshot (s : snapshot) : M unit :=
  let '(cpu, memory, processes) := s in
  cores <~ get num_cores ;;
  set_cpu_label (cpu_text cores cpu) ;;;
  set_memory_label (memory_text memory) ;;;
  set_process_count_label (process_count_text processes) ;;;
  items <~ get (fun a => get_children (tree a)) ;;
  mfor items (fun item => on_tree (fun t => delete t item)) ;;;
  mfor processes insert_process.

(** Lines 124-149: the [while] loop, over the snapshots the queue holds. *)
Fixpoint drain (queue : list snapshot) : M unit :=
  match queue with
  | [] => ret tt
  | s :: queue' => set_queue queue' ;;; show_snapshot s ;;; drain queue'
  end.

(** Lines 121-154. *)
Definition check_updates : M unit :=
  mtry_Exception
    (queue <~ get update_queue ;; drain queue)
    (fun e => emit (Printed ("Error updating UI: " ++ exn_str e))) ;;;
  emit (After 100).

(** *** sort_column *)

Definition numeric_column (col : column) : bool :=
  match col with
  | CPU | Memory => true
  | _ => false
  end.

(** The key of line 161: [float(x[0]) if x[0] else 0]. *)
Definition numeric_key (x : string * iid) : result float :=
  if String.eqb (fst x) "" then Ok 0%float else float_of_str (fst x).

(** The pair itself, as compared at line 163: the cell, then the item's
    identifier. *)
Definition text_key (x : string * iid) : result (string * string) :=
  Ok (fst x, iid_str (snd x)).

(** [enumerate]. *)
Fixpoint enumerate_from {A : Type} (i : nat) (l : list A) : list (nat * A) :=
  match l with
  | [] => []
  | x :: l' => (i, x) :: enumerate_from (S i) l'
  end.

Definition enumerate {A : Type} (l : list A) : list (nat * A) :=
  enumerate_from 0 l.

(** Line 158, one element of the comprehension: [(self.tree.set(k, col), k)]. *)
Definition read_cell (col : column) (k : iid) : M (string * iid) :=
  t <~ get tree ;; v <~ lift (set t k col) ;; ret (v, k).

(** Lines 165-166, the body of the loop: [self.tree.move(k, '', index)]. *)
Definition move_item (x : nat * (string * iid)) : M unit :=
  let '(index, (val, k)) := x in on_tree (fun t => move t k index).

(** Lines 156-169. *)
Definition sort_column (col : column) (reverse : bool) : M unit :=
  keys <~ get (fun a => get_children (tree a)) ;;
  items <~ mmap (read_cell col) keys ;;
  items <~ lift (if numeric_column col
                 then sort PrimFloat.ltb numeric_key reverse items
                 else sort pair_lt text_key reverse items) ;;
  mfor (enumerate items) move_item ;;;
  on_tree (fun t => Ok (heading t col (col, negb reverse))).

(** A click on the heading of [col] runs the command bound to it. *)
Definition click_heading (col : column) : M unit :=
  t <~ get tree ;;
  match heading_command t col with
  | Some (c, reverse) => sort_column c reverse
  | None => ret tt
  end.

(** *** terminate_process *)

(** What the confirmation dialog and the operating system answer. *)
Record world : Type := World {
  w_confirm : bool;
  w_process : Z -> result unit;
  w_terminate : Z -> result unit
}.

(** Lines 171-189. *)
Definition terminate_process (w : world) : M unit :=
  selection <~ get (fun a => selected (tree a)) ;;
  match selection with
  | [] => emit (ShowWarning "No Selection" "Please select a process to terminate.")
  | first :: _ =>
      t <~ get tree ;;
      v <~ lift (item_values t first) ;;
      let pid := v_pid v in
      emit (AskYesNo "Confirm Termination"
              ("Are you sure you want to terminate PID " ++ str_int pid ++ "?")) ;;;
      if w_confirm w then
        mtry_Exception
          (lift (w_process w pid) ;;;
           emit (OsTerminate pid) ;;;
           lift (w_terminate w pid) ;;;
           emit (ShowInfo "Success" ("Process " ++ str_int pid ++ " terminated.")))
          (fun e =>
             match exn_cls e with
             | NoSuchProcess => emit (ShowError "Error" "Process no longer exists.")
             | AccessDenied =>
                 emit (ShowError "Error" "Access denied. Run as Administrator.")
             | _ => emit (ShowError "Error"
                            ("Failed to terminate process: " ++ exn_str e))
             end)
      else ret tt
  end.

(** *** __init__ *)

(** Line 44: the variable behind the spinbox starts at half a second. *)
Definition refresh_rate_initial : float := 0.5%float.

(** Line 45: the range of the spinbox arrows. *)
Definition spinbox_from : float := 0.1%float.
Definition spinbox_to : float := 5.0%float.

(** Lines 66-70: the commands bound to the headings. *)
Definition initial_heading_command (col : column) : option (column * bool) :=
  match col with
  | PID => Some (PID, false)
  | Name => Some (Name, false)
  | CPU => Some (CPU, true)
  | Memory => Some (Memory, true)
  | Status => None
  end.

(** Lines 9-87: the attributes once the widgets are built, for the core
    count that [psutil.cpu_count()] returned. *)
Definition init (cores : Z) : app :=
  App cores [] "CPU: 0%" "Memory: 0%" "Processes: 0"
    (Treeview [] 0 [] initial_heading_command) [].

(** What the operator sees: the three labels and the cells of the rows. *)
Definition displayed (a : app) : string * string * string * list (list string) :=
  (cpu_label a, memory_label a, process_count_label a,
   map (fun it => cells (snd it)) (children (tree a))).

End Monitor.

(* ================================================================== *)
(** * The vocabulary of the properties *)
(* ================================================================== *)

(** No key is smaller than the key before it. *)
Definition ascending_keys {A K : Type} (lt : K -> K -> bool) (x y : K * A) : Prop :=
  lt (fst y) (fst x) = false.

(** Every element and its successor in the list are related: for all [i],
    [R l[i] l[i+1]]. *)
Definition adjacent {X : Type} (R : X -> X -> Prop) (l : list X) : Prop :=
  forall i x y, nth_error l i = Some x -> nth_error l (S i) = Some y -> R x y.

Section Vocabulary.
Import Py Psutil Tk Monitor.

(** The test of line 104, negated: the record is one of the idle entries. *)
Definition is_idle (r : pinfo) : bool := str_in (lower (name r)) idle_names.

(** [p] is the record [r] as the sampler stores it for [n] cores: the
    division of line 105 returned the [cpu_percent] of [p], and nothing else
    differs. *)
Definition normalized (n : Z) (r p : pinfo) : Prop :=
  float_div_int (cpu_percent r) n = Ok (cpu_percent p) /\
  p = set_cpu_percent r (cpu_percent p).

(** The records whose info was read, in enumeration order. *)
Definition successes (procs : list (result pinfo)) : list pinfo :=
  flat_map (fun proc => match proc with Ok r => [r] | Raise _ => [] end) procs.

(** Every read that failed did so with one of the two exceptions of line 107. *)
Definition only_skippable (procs : list (result pinfo)) : Prop :=
  Forall (fun proc =>
            match proc with
            | Ok _ => True
            | Raise e => catches [NoSuchProcess; AccessDenied] (exn_cls e) = true
            end) procs.

(** Largest [cpu_percent] first: each record's value is at least the next
    one's. *)
Definition descending_cpu (ps : list pinfo) : Prop :=
  adjacent (fun p q => (cpu_percent q <=? cpu_percent p)%float = true) ps.

(** Everything of [self] but the trace is the same in [a'] as in [a]: the
    labels, the table with its selection and headings, the queue. *)
Definition same_widgets (a a' : app) : Prop :=
  num_cores a' = num_cores a /\ update_queue a' = update_queue a /\
  cpu_label a' = cpu_label a /\ memory_label a' = memory_label a /\
  process_count_label a' = process_count_label a /\ tree a' = tree a.

(** Everything of [self] but the rows, the selection and the trace is the
    same in [a'] as in [a]. *)
Definition same_but_rows (a a' : app) : Prop :=
  num_cores a' = num_cores a /\ update_queue a' = update_queue a /\
  cpu_label a' = cpu_label a /\ memory_label a' = memory_label a /\
  process_count_label a' = process_count_label a /\
  heading_command (tree a') = heading_command (tree a).

(** The row lines 139-146 make of a record, when they make one. *)
Definition row_of (p : pinfo) : list values :=
  match memory_info p with
  | Some m =>
      match int_truediv (rss m) (1024 * 1024) with
      | Ok memory_mb =>
          [Values (pid p) (name p) (format_1f (cpu_percent p))
             (format_1f memory_mb) (status p)]
      | Raise _ => []
      end
  | None => []
  end.

(** The resident size of the record, if it has one, is within what a float
    can hold once in MB. *)
Definition renders (p : pinfo) : Prop :=
  match memory_info p with
  | Some m => exists memory_mb, int_truediv (rss m) (1024 * 1024) = Ok memory_mb
  | None => True
  end.

(** What the operator sees once a snapshot is shown by [cores] cores' worth
    of interface. *)
Definition shown (cores : Z) (s : snapshot)
    : string * string * string * list (list string) :=
  (cpu_text cores (fst (fst s)), memory_text (snd (fst s)),
   process_count_text (snd s), map cells (flat_map row_of (snd s))).

(** The labels, the queue and the core count are the same in [a'] as in [a]. *)
Definition same_labels (a a' : app) : Prop :=
  num_cores a' = num_cores a /\ update_queue a' = update_queue a /\
  cpu_label a' = cpu_label a /\ memory_label a' = memory_label a /\
  process_count_label a' = process_count_label a.

(** The number the text of a cell stands for: what [float()] reads in it. *)
Definition cell_number (col : column) (it : iid * values) : result float :=
  float_of_str (cell (snd it) col).

(** The rows are in the order of column [col]: for the numeric columns, CPU%
    and Memory, in the order of the numbers their cells stand for; for the
    text columns, PID, Name and Status, in the order of the strings in their
    cells; non-decreasing, or non-increasing when [reverse] is set. *)
Definition sorted_by (col : column) (reverse : bool) (rows : list (iid * values))
    : Prop :=
  match col with
  | CPU | Memory =>
      adjacent (fun x y => exists fx fy,
                  cell_number col x = Ok fx /\ cell_number col y = Ok fy /\
                  (if reverse then fy <=? fx else fx <=? fy)%float = true) rows
  | PID | Name | Status =>
      adjacent (fun x y =>
                  (if reverse
                   then String.leb (cell (snd y) col) (cell (snd x) col)
                   else String.leb (cell (snd x) col) (cell (snd y) col)) = true)
        rows
  end.

(** In the numeric columns, CPU% and Memory, every cell reads as a number
    (not NaN). *)
Definition numeric_cells (col : column) (rows : list (iid * values)) : Prop :=
  match col with
  | CPU | Memory =>
      Forall (fun it => exists f, cell_number col it = Ok f /\ is_nan f = false)
        rows
  | PID | Name | Status => True
  end.

(** The question of line 179. *)
Definition confirm_question (pid : Z) : gui_event :=
  AskYesNo "Confirm Termination"
    ("Are you sure you want to terminate PID " ++ str_int pid ++ "?").

(** What the two calls of lines 181-182 come to. *)
Definition os_outcome (w : world) (pid : Z) : result unit :=
  _ <- w_process w pid ;; w_terminate w pid.

(** The flag [self.running] was found raised. *)
Definition running (c : cycle) : Prop := c_running c = true.

(** The line the sampler prints for an exception. *)
Definition error_line (e : exn) : string := "Error in update thread: " ++ exn_str e.

End Vocabulary.

(* ================================================================== *)
(** * Concrete runs *)
(* ================================================================== *)

Module Examples.
Import Py Psutil Tk Monitor.

(** A backend with four cores' worth of answers: two ordinary processes, the
    idle entry, and one whose info cannot be read. *)
Definition procs4 : list (result pinfo) :=
  [Ok (Pinfo 10 "alpha" 40%float (Some (Pmem 1048576)) "running");
   Raise (Exn AccessDenied "pid=4");
   Ok (Pinfo 0 "System Idle Process" 390%float None "running");
   Ok (Pinfo 11 "beta" 400%float (Some (Pmem 2097152)) "sleeping")].

Definition memory4 : svmem := Svmem 16000000000 8000000000 50%float.

Definition backend4 : reading := Reading (Ok 25%float) (Ok memory4) (Ok procs4).

Definition snapshot4 : snapshot :=
  (25%float, memory4,
   [Pinfo 11 "beta" 100%float (Some (Pmem 2097152)) "sleeping";
    Pinfo 10 "alpha" 10%float (Some (Pmem 1048576)) "running"]).

(** Fifty-one readable processes, all at rest, after one that is denied. *)
Definition procs52 : list (result pinfo) :=
  Raise (Exn AccessDenied "pid=4")
  :: map (fun i => Ok (Pinfo (Z.of_nat i) "worker" 0%float None "running"))
       (seq 1 51).

Definition backend52 : reading := Reading (Ok 0%float) (Ok memory4) (Ok procs52).

(** The same four cores when the backend is denied the attributes of one
    process: it yields it with None for its name. *)
Definition procs_denied : list (result pinfo) :=
  [Ok (Pinfo 10 "alpha" 40%float (Some (Pmem 1048576)) "running");
   access_denied_info;
   Ok (Pinfo 0 "System Idle Process" 390%float None "running");
   Ok (Pinfo 11 "beta" 400%float (Some (Pmem 2097152)) "sleeping")].

Definition backend_denied : reading :=
  Reading (Ok 25%float) (Ok memory4) (Ok procs_denied).

(** Three processes, one of them without [memory_info]. *)
Definition backend_ghost : reading :=
  Reading (Ok 25%float) (Ok memory4)
    (Ok [Ok (Pinfo 10 "alpha" 40%float (Some (Pmem 1048576)) "running");
         Ok (Pinfo 7 "ghost" 2%float None "zombie");
         Ok (Pinfo 11 "beta" 400%float (Some (Pmem 2097152)) "sleeping")]).

Definition snapshot_ghost : snapshot :=
  (25%float, memory4,
   [Pinfo 11 "beta" 100%float (Some (Pmem 2097152)) "sleeping";
    Pinfo 10 "alpha" 10%float (Some (Pmem 1048576)) "running";
    Pinfo 7 "ghost" 0.5%float None "zombie"]).


(** Three observations of the loop: a good cycle, a failing one, and the flag
    found lowered. *)
Definition cycle_good : cycle := Cycle true backend4 (Ok 0.5%float).

(** A cycle during which the variable of the spinbox holds 7.5. *)
Definition cycle_slow : cycle := Cycle true backend4 (Ok 7.5%float).

(** A cycle that meets a process whose attributes are denied. *)
Definition cycle_denied : cycle := Cycle true backend_denied (Ok 0.5%float).

(** A cycle in which reading one process fails with an I/O error. *)
Definition cycle_io_error : cycle :=
  Cycle true
    (Reading (Ok 25%float) (Ok memory4)
       (Ok ([Ok (Pinfo 10 "alpha" 40%float (Some (Pmem 1048576)) "running")]
            ++ Raise (Exn OtherException "[Errno 5] Input/output error")
            :: [Ok (Pinfo 11 "beta" 400%float (Some (Pmem 2097152)) "sleeping")])%list))
    (Ok 0.5%float).

(** A cycle during which the variable of the spinbox holds -1. *)
Definition cycle_negative : cycle := Cycle true backend4 (Ok (-1)%float).

(** A table of two rows, the first one selected. *)
Definition app_two_rows : app :=
  App 4 [] "CPU: 25.0% (Cores: 4)" "Memory: 50.0% (7629 MB / 15258 MB)"
    "Processes: 2"
    (Treeview [(1%nat, Values 11 "beta" "100.0" "2.0" "sleeping");
               (2%nat, Values 10 "alpha" "10.0" "1.0" "running")]
       2 [1%nat] initial_heading_command)
    [].

(** A table whose CPU cells order one way as numbers and the other way as
    strings: 9.0 is below 10.0, and "9.0" is above "10.0". *)
Definition app_nine_ten : app :=
  App 4 [] "CPU: 25.0% (Cores: 4)" "Memory: 50.0% (7629 MB / 15258 MB)"
    "Processes: 2"
    (Treeview [(1%nat, Values 11 "beta" "9.0" "2.0" "sleeping");
               (2%nat, Values 10 "alpha" "10.0" "1.0" "running")]
       2 [] initial_heading_command)
    [].

(** The same table with both rows selected. *)
Definition app_both_selected : app :=
  App 4 [] "CPU: 25.0% (Cores: 4)" "Memory: 50.0% (7629 MB / 15258 MB)"
    "Processes: 2"
    (Treeview [(1%nat, Values 11 "beta" "100.0" "2.0" "sleeping");
               (2%nat, Values 10 "alpha" "10.0" "1.0" "running")]
       2 [1%nat; 2%nat] initial_heading_command)
    [].

(** The same table with no row selected. *)
Definition app_no_selection : app :=
  App 4 [] "CPU: 25.0% (Cores: 4)" "Memory: 50.0% (7629 MB / 15258 MB)"
    "Processes: 2"
    (Treeview [(1%nat, Values 11 "beta" "100.0" "2.0" "sleeping");
               (2%nat, Values 10 "alpha" "10.0" "1.0" "running")]
       2 [] initial_heading_command)
    [].

(** The operator confirms and the process is already gone. *)
Definition world_gone : world :=
  World true (fun _ => Raise (Exn NoSuchProcess "process no longer exists"))
    (fun _ => Ok tt).

(** The operator declines. *)
Definition world_declined : world := World false (fun _ => Ok tt) (fun _ => Ok tt).

(** Two snapshots in the queue of a fresh interface, the older first. *)
Definition snapshot_old : snapshot :=
  (90%float, Svmem 16000000000 4000000000 25%float,
   [Pinfo 77 "old" 88.8%float (Some (Pmem 1048576)) "running";
    Pinfo 78 "older" 1.5%float (Some (Pmem 3145728)) "sleeping"]).

Definition app_two_queued : app :=
  snd ((put snapshot_old ;;; put snapshot4) (init 4)).

(** The snapshot of the rendering scenario. *)
Definition snapshot_worker : snapshot :=
  (12.5%float, memory4,
   [Pinfo 1234 "worker" 12.34%float (Some (Pmem 52428800)) "running"]).

End Examples.

(* ================================================================== *)
(** * The interface in use *)
(* ================================================================== *)

Module Session.
Import Py Psutil Tk Monitor.

(** The operator changes the selection: the rows among [ks] get the flag and
    the others lose it; only rows of the table can be selected, and the
    selection lists them from the top down. *)
Definition select_rows (ks : list iid) : M unit :=
  fun a =>
    let t := tree a in
    (Ok tt,
     App (num_cores a) (update_queue a) (cpu_label a) (memory_label a)
       (process_count_label a)
       (Treeview (children t) (serial t) (flagged ks (children t))
          (heading_command t))
       (trace a)).

(** What happens to the interface, one thing at a time: the sampler puts a
    snapshot on the queue, the 100 ms timer fires, the operator clicks a
    heading, selects rows, or presses the terminate button. *)
Inductive action : Type :=
| Arrive (s : snapshot)
| Tick
| Click (col : column)
| Select (ks : list iid)
| Terminate (w : world).

(** A callback that raises is reported by the toolkit and the interface
    lives on with what the callback did until then. *)
Definition step (a : app) (act : action) : app :=
  match act with
  | Arrive s => snd (put s a)
  | Tick => snd (check_updates a)
  | Click col => snd (click_heading col a)
  | Select ks => snd (select_rows ks a)
  | Terminate w => snd (terminate_process w a)
  end.

Definition run (acts : list action) (a : app) : app := fold_left step acts a.

End Session.

(* ================================================================== *)
(** * Further vocabulary *)
(* ================================================================== *)

Section MoreVocabulary.
Import Py Psutil Tk Monitor.

(** The place of a float in the order of the floats: the sign class, then
    the exponent, then the mantissa; NaN has none. *)
Definition rank (x : spec_float) : option (Z * Z * Z) :=
  match x with
  | S754_nan => None
  | S754_infinity true => Some (-2, 0, 0)
  | S754_infinity false => Some (2, 0, 0)
  | S754_zero _ => Some (0, 0, 0)
  | S754_finite true m e => Some (-1, - e, Zneg m)
  | S754_finite false m e => Some (1, e, Zpos m)
  end.

(** Lexicographic comparison of two ranks. *)
Definition rank_compare (r r' : Z * Z * Z) : comparison :=
  let '(a, b, c) := r in
  let '(a', b', c') := r' in
  match (a ?= a')%Z with
  | Eq => match (b ?= b')%Z with
          | Eq => (c ?= c')%Z
          | o => o
          end
  | o => o
  end.

(** A method preserves a property of the interface: whatever state it
    starts from and however it ends, returning or raising, the property holds
    afterwards if it held before. *)
Definition preserves {A : Type} (Q : app -> Prop) (m : M A) : Prop :=
  forall a, Q a -> Q (snd (m a)).

(** The table is well formed: its items are distinct and none is newer than
    the serial number, the selection is made of rows of the table, and every
    heading but Status sorts its own column. *)
Definition wf_tree (t : treeview) : Prop :=
  NoDup (get_children t) /\
  Forall (fun k => (k <= serial t)%nat) (get_children t) /\
  incl (selected t) (get_children t) /\
  heading_command t Status = None /\
  forall c, c <> Status -> exists r, heading_command t c = Some (c, r).

(** The record has a resident size. *)
Definition has_memory (p : pinfo) : bool :=
  match memory_info p with
  | Some _ => true
  | None => false
  end.

(** The iterations the loop runs: those before the first one that finds the
    flag lowered. *)
Fixpoint run_prefix (cs : list cycle) : list cycle :=
  match cs with
  | [] => []
  | c :: cs' => if c_running c then c :: run_prefix cs' else []
  end.

Definition is_sleep (ev : sampler_event) : bool :=
  match ev with
  | Sleep _ => true
  | _ => false
  end.

Definition is_put (ev : sampler_event) : bool :=
  match ev with
  | Put _ => true
  | _ => false
  end.

(** The reads the sampler stores, in enumeration order: those that returned
    and are not an idle entry. *)
Definition stored_reads (procs : list (result pinfo)) : list pinfo :=
  filter (fun r => negb (is_idle r)) (successes procs).

(** The events are lines printed by the interface. *)
Definition only_prints (events : list gui_event) : Prop :=
  Forall (fun ev => exists line, ev = Printed line) events.

End MoreVocabulary.

(* ================================================================== *)
(** * Properties *)
(* ================================================================== *)

Import Py Psutil Tk Monitor.
Local Open Scope list_scope.
Local Arguments firstn : simpl never.

(** ** Facts about the builtins *)

Section ResultFacts.
Context {A S : Type}.
Variable body : S -> A -> result S.

Lemma for_each_app (xs ys : list A) (s : S) :
  for_each body (xs ++ ys) s = (s' <- for_each body xs s ;; for_each body ys s').
Proof.
  revert s; induction xs as [|x xs IH]; intros s; simpl.
  - reflexivity.
  - destruct (body s x) as [s1|e]; simpl; [apply IH | reflexivity].
Qed.

End ResultFacts.

(** *** The order of floats *)

Section FloatOrder.

Lemma SFcompare_antisym (x y : spec_float) :
  SFcompare y x = option_map CompOpp (SFcompare x y).
Proof.
  destruct x as [sx|sx| |sx mx ex], y as [sy|sy| |sy my ey]; simpl;
    try reflexivity;
    try (destruct sx; reflexivity); try (destruct sy; reflexivity);
    try (destruct sx, sy; reflexivity).
  change PosDef.Pos.compare_cont with Pos.compare_cont.
  rewrite (Z.compare_antisym ex ey).
  pose proof (Pos.compare_cont_antisym mx my Eq) as H; simpl in H.
  rewrite <- H.
  destruct sx, sy; try reflexivity; destruct (ex ?= ey)%Z; simpl;
    try reflexivity; destruct (Pos.compare_cont Eq mx my); reflexivity.
Qed.

Lemma SFcompare_refl (x : spec_float) :
  x <> S754_nan -> SFcompare x x = Some Eq.
Proof.
  destruct x as [s|s| |s m e]; simpl; intros H; try reflexivity.
  - destruct s; reflexivity.
  - congruence.
  - change PosDef.Pos.compare_cont with Pos.compare_cont.
    rewrite Z.compare_refl, Pos.compare_cont_refl. destruct s; reflexivity.
Qed.

Lemma SFcompare_nan (x y : spec_float) :
  SFcompare x y = None <-> x = S754_nan \/ y = S754_nan.
Proof.
  destruct x, y; simpl; split; intros H; try discriminate; auto;
    destruct H; discriminate.
Qed.

Lemma is_nan_spec (x : float) : is_nan x = false <-> Prim2SF x <> S754_nan.
Proof.
  unfold is_nan, PrimFloat.is_nan. rewrite eqb_spec. unfold SFeqb. split.
  - intros H E. rewrite E in H. discriminate.
  - intros H. rewrite SFcompare_refl by assumption. reflexivity.
Qed.

(** [<] is asymmetric on all floats. *)
Lemma ltb_asym (x y : float) : (x <? y)%float = true -> (y <? x)%float = false.
Proof.
  rewrite !ltb_spec. unfold SFltb.
  rewrite (SFcompare_antisym (Prim2SF x) (Prim2SF y)).
  destruct (SFcompare (Prim2SF x) (Prim2SF y)) as [[]|]; simpl; congruence.
Qed.

(** Away from NaN, [not (y < x)] is [x <= y]. *)
Lemma not_ltb_leb (x y : float) :
  is_nan x = false -> is_nan y = false ->
  (y <? x)%float = false -> (x <=? y)%float = true.
Proof.
  rewrite !is_nan_spec, ltb_spec, leb_spec. unfold SFltb, SFleb.
  intros Hx Hy. rewrite (SFcompare_antisym (Prim2SF x) (Prim2SF y)).
  destruct (SFcompare (Prim2SF x) (Prim2SF y)) as [[]|] eqn:E; simpl;
    try congruence.
  apply SFcompare_nan in E. tauto.
Qed.

End FloatOrder.

(** *** list.sort *)

Section SortFacts.
Context {A K : Type}.
Variable lt : K -> K -> bool.
Hypothesis lt_asym : forall a b, lt a b = true -> lt b a = false.

(** The order a sorted keyed list is in, [ascending_keys]: no element is
    smaller than the one before it. *)

Lemma insert_sorted_perm (x : K * A) (l : list (K * A)) :
  Permutation (insert_sorted lt x l) (x :: l).
Proof.
  induction l as [|y l IH]; simpl.
  - apply Permutation_refl.
  - destruct (lt (fst y) (fst x)).
    + rewrite IH. apply perm_swap.
    + apply Permutation_refl.
Qed.

Lemma sort_keyed_perm (l : list (K * A)) : Permutation (sort_keyed lt l) l.
Proof.
  induction l as [|x l IH]; simpl.
  - apply perm_nil.
  - rewrite insert_sorted_perm. apply perm_skip, IH.
Qed.

Lemma sort_decorated_perm (reverse : bool) (l : list (K * A)) :
  Permutation (sort_decorated lt reverse l) l.
Proof.
  unfold sort_decorated. destruct reverse.
  - rewrite <- Permutation_rev, sort_keyed_perm. symmetry. apply Permutation_rev.
  - apply sort_keyed_perm.
Qed.

Lemma insert_sorted_HdRel (y x : K * A) (l : list (K * A)) :
  HdRel (ascending_keys lt) y l -> ascending_keys lt y x ->
  HdRel (ascending_keys lt) y (insert_sorted lt x l).
Proof.
  intros Hl Hx. destruct l as [|z l]; simpl.
  - constructor. exact Hx.
  - destruct (lt (fst z) (fst x)); constructor.
    + apply HdRel_inv in Hl. exact Hl.
    + exact Hx.
Qed.

Lemma insert_sorted_Sorted (x : K * A) (l : list (K * A)) :
  Sorted (ascending_keys lt) l -> Sorted (ascending_keys lt) (insert_sorted lt x l).
Proof.
  induction 1 as [|y l Hs IH Hd]; simpl.
  - repeat constructor.
  - destruct (lt (fst y) (fst x)) eqn:E.
    + constructor; [exact IH|].
      apply insert_sorted_HdRel; [exact Hd|]. apply lt_asym, E.
    + constructor; [constructor; assumption|]. constructor. exact E.
Qed.

Lemma sort_keyed_Sorted (l : list (K * A)) :
  Sorted (ascending_keys lt) (sort_keyed lt l).
Proof.
  induction l as [|x l IH]; simpl.
  - constructor.
  - apply insert_sorted_Sorted, IH.
Qed.

End SortFacts.

Section AdjacentFacts.
Context {X : Type}.
Variable R : X -> X -> Prop.

Lemma Sorted_adjacent (l : list X) : Sorted R l -> adjacent R l.
Proof.
  induction 1 as [|a l Hs IH Hd]; intros i x y Hx Hy.
  - destruct i; discriminate.
  - destruct i as [|i]; simpl in Hx, Hy.
    + injection Hx as <-. destruct l as [|b l]; [discriminate|].
      injection Hy as <-. apply HdRel_inv in Hd. exact Hd.
    + exact (IH i x y Hx Hy).
Qed.

Lemma adjacent_rev (l : list X) :
  adjacent R l -> adjacent (fun x y => R y x) (rev l).
Proof.
  intros H i x y Hx Hy. rewrite nth_error_rev in Hx, Hy.
  destruct (Nat.ltb_spec (S i) (List.length l)) as [Hlt|]; [|discriminate].
  destruct (Nat.ltb_spec i (List.length l)) as [_|]; [|discriminate].
  apply (H (List.length l - S (S i))%nat); [exact Hy|].
  replace (S (List.length l - S (S i))) with (List.length l - S i)%nat by lia.
  exact Hx.
Qed.

Lemma adjacent_firstn (n : nat) (l : list X) :
  adjacent R l -> adjacent R (firstn n l).
Proof.
  intros H i x y Hx Hy. rewrite nth_error_firstn in Hx, Hy.
  destruct (i <? n)%nat; [|discriminate].
  destruct (S i <? n)%nat; [|discriminate].
  exact (H i x y Hx Hy).
Qed.

Lemma adjacent_map {Y : Type} (f : Y -> X) (l : list Y) :
  adjacent (fun a b => R (f a) (f b)) l -> adjacent R (map f l).
Proof.
  intros H i x y Hx Hy. rewrite nth_error_map in Hx, Hy.
  destruct (nth_error l i) as [a|] eqn:Ea; [|discriminate].
  destruct (nth_error l (S i)) as [b|] eqn:Eb; [|discriminate].
  injection Hx as <-. injection Hy as <-. exact (H i a b Ea Eb).
Qed.

Lemma adjacent_impl (Q : X -> X -> Prop) (P : X -> Prop) (l : list X) :
  (forall x y, P x -> P y -> R x y -> Q x y) ->
  Forall P l -> adjacent R l -> adjacent Q l.
Proof.
  intros HRQ HP H i x y Hx Hy. rewrite Forall_forall in HP.
  apply HRQ; [| |exact (H i x y Hx Hy)];
    apply HP; eapply nth_error_In; eassumption.
Qed.

End AdjacentFacts.

(** *** Division never invents a NaN *)

Section DivisionFacts.

Lemma shr_1_nonneg (mrs : shr_record) : 0 <= shr_m mrs -> 0 <= shr_m (shr_1 mrs).
Proof.
  destruct mrs as [m r s]; simpl. destruct m as [|p|p]; simpl; intros H.
  - lia.
  - destruct p; simpl; lia.
  - lia.
Qed.

Lemma iter_shr_1_nonneg (p : positive) (mrs : shr_record) :
  0 <= shr_m mrs -> 0 <= shr_m (iter_pos shr_1 p mrs).
Proof.
  revert mrs. induction p as [p IH|p IH|]; intros mrs H; simpl.
  - apply IH, IH, shr_1_nonneg, H.
  - apply IH, IH, H.
  - apply shr_1_nonneg, H.
Qed.

Lemma shr_fexp_nonneg (p e' m e : Z) (l : location) :
  0 <= m -> 0 <= shr_m (fst (shr_fexp p e' m e l)).
Proof.
  intros H. unfold shr_fexp, shr.
  assert (H0 : 0 <= shr_m (shr_record_of_loc m l))
    by (destruct l as [|[]]; exact H).
  destruct (fexp p e' (Zdigits2 m + e) - e); simpl; try exact H0.
  apply iter_shr_1_nonneg, H0.
Qed.

Lemma round_nearest_even_nonneg (m : Z) (l : location) :
  0 <= m -> 0 <= round_nearest_even m l.
Proof.
  intros H. destruct l as [|[]]; simpl; try lia. destruct (Z.even m); lia.
Qed.

Lemma binary_round_aux_not_nan (p e' : Z) (s : bool) (m e : Z) (l : location) :
  0 <= m -> binary_round_aux p e' s m e l <> S754_nan.
Proof.
  intros H. unfold binary_round_aux.
  pose proof (shr_fexp_nonneg p e' m e l H) as H1.
  destruct (shr_fexp p e' m e l) as [mrs1 e1]; simpl in H1.
  pose proof (shr_fexp_nonneg p e'
                (round_nearest_even (shr_m mrs1) (loc_of_shr_record mrs1))
                e1 loc_Exact (round_nearest_even_nonneg _ _ H1)) as H2.
  destruct (shr_fexp p e' _ e1 loc_Exact) as [mrs2 e2]; simpl in H2.
  destruct (shr_m mrs2) as [|q|q]; try discriminate.
  - destruct (e2 <=? e' - p)%Z; discriminate.
  - lia.
Qed.

Lemma SFdiv_core_nonneg (p e' : Z) (m1 : positive) (e1 : Z) (m2 : positive) (e2 : Z) :
  0 <= fst (fst (SFdiv_core_binary p e' (Zpos m1) e1 (Zpos m2) e2)).
Proof.
  unfold SFdiv_core_binary.
  set (s := e1 - e2 - _).
  set (m' := match s with Z0 => Zpos m1 | Zpos _ => Z.shiftl (Zpos m1) s | Zneg _ => 0 end).
  assert (Hm : 0 <= m').
  { subst m'. destruct s; try lia. apply Z.shiftl_nonneg. lia. }
  pose proof (Z.div_pos m' (Zpos m2) Hm eq_refl) as Hq.
  unfold Z.div in Hq. destruct (Z.div_eucl m' (Zpos m2)) as [q r]. exact Hq.
Qed.

Lemma SFdiv_not_nan (x : spec_float) (s : bool) (m : positive) (e : Z) :
  x <> S754_nan -> SFdiv prec emax x (S754_finite s m e) <> S754_nan.
Proof.
  intros Hx. destruct x as [sx|sx| |sx mx ex]; simpl; try discriminate.
  - congruence.
  - pose proof (SFdiv_core_nonneg prec emax mx ex m e) as H.
    destruct (SFdiv_core_binary prec emax (Zpos mx) ex (Zpos m) e) as [[mz ez] lz].
    apply binary_round_aux_not_nan. exact H.
Qed.

(** A float that is finite and not zero is a mantissa and an exponent. *)
Lemma finite_nonzero_spec (d : float) :
  PrimFloat.is_finite d = true -> PrimFloat.eqb d 0%float = false ->
  exists s m e, Prim2SF d = S754_finite s m e.
Proof.
  unfold PrimFloat.is_finite, PrimFloat.is_infinity, PrimFloat.is_nan.
  rewrite !eqb_spec, abs_spec.
  destruct (Prim2SF d) as [s|s| |s m e]; simpl; intros H1 H2.
  - vm_compute in H2. discriminate.
  - destruct s; vm_compute in H1; discriminate.
  - discriminate.
  - eauto.
Qed.

Lemma float_div_int_not_nan (x : float) (n : Z) (y : float) :
  is_nan x = false -> float_div_int x n = Ok y -> is_nan y = false.
Proof.
  intros Hx. unfold float_div_int, float_of_int.
  set (d := SF2Prim _).
  destruct (PrimFloat.is_finite d) eqn:Hf; simpl; [|discriminate].
  destruct (PrimFloat.eqb d 0%float) eqn:Hz; [discriminate|].
  intros [= <-]. apply is_nan_spec. rewrite div_spec.
  destruct (finite_nonzero_spec d Hf Hz) as (s & m & e & ->).
  apply SFdiv_not_nan. apply is_nan_spec, Hx.
Qed.

End DivisionFacts.

(** ** The sampler *)

Section SamplerFacts.
Variable n : Z.

Lemma read_process_skip (acc : list pinfo) (e : exn) :
  catches [NoSuchProcess; AccessDenied] (exn_cls e) = true ->
  read_process n acc (Raise e) = Ok acc.
Proof. intros H. unfold read_process, try_except, bind. rewrite H. reflexivity. Qed.

(** The divisions of the builtins raise nothing line 107 catches. *)
Lemma float_div_int_raises (x : float) (e : exn) :
  float_div_int x n = Raise e ->
  catches [NoSuchProcess; AccessDenied] (exn_cls e) = false.
Proof.
  unfold float_div_int, float_of_int.
  destruct (PrimFloat.is_finite _); simpl.
  - destruct (PrimFloat.eqb _ _); [|discriminate]. intros [= <-]. reflexivity.
  - intros [= <-]. reflexivity.
Qed.

Lemma read_process_ok (acc : list pinfo) (r : pinfo) :
  read_process n acc (Ok r) =
    if is_idle r then Ok acc
    else (c <- float_div_int (cpu_percent r) n ;;
          Ok (acc ++ [set_cpu_percent r c])%list).
Proof.
  unfold read_process, is_idle, try_except, bind.
  destruct (str_in (lower (name r)) idle_names); cbn [negb]; [reflexivity|].
  destruct (float_div_int (cpu_percent r) n) as [c|e] eqn:E.
  - reflexivity.
  - rewrite (float_div_int_raises _ _ E). reflexivity.
Qed.

(** What the loop of lines 101-108 returns, when it returns: the list it
    started from, followed by stored records only. *)
Lemma collect_inv (procs : list (result pinfo)) (acc ps : list pinfo) :
  for_each (read_process n) procs acc = Ok ps ->
  exists l, ps = (acc ++ l)%list /\
    Forall (fun p => exists r, In (Ok r) procs /\ is_idle r = false /\
                               normalized n r p) l.
Proof.
  revert acc. induction procs as [|proc procs IH]; intros acc; simpl.
  - intros [= <-]. exists []. rewrite app_nil_r. split; constructor.
  - destruct (read_process n acc proc) as [acc1|e] eqn:E; simpl; [|discriminate].
    intros H. destruct (IH _ H) as (l & -> & Hl).
    assert (Hw : Forall (fun p => exists r, In (Ok r) (proc :: procs) /\
                  is_idle r = false /\ normalized n r p) l).
    { eapply Forall_impl; [|exact Hl]. intros p (r & Hr & Hrest).
      exists r. split; [right; exact Hr|exact Hrest]. }
    destruct proc as [r|e].
    + rewrite read_process_ok in E. destruct (is_idle r) eqn:Ei.
      * injection E as <-. exists l. split; [reflexivity|exact Hw].
      * destruct (float_div_int (cpu_percent r) n) as [c|e] eqn:Ed;
          simpl in E; [|discriminate].
        injection E as <-. exists (set_cpu_percent r c :: l).
        split; [rewrite <- app_assoc; reflexivity|].
        constructor; [|exact Hw].
        exists r. split; [left; reflexivity|]. split; [exact Ei|].
        split; [exact Ed|reflexivity].
    + unfold read_process, try_except, bind in E.
      destruct (catches _ _); [|discriminate].
      injection E as <-. exists l. split; [reflexivity|exact Hw].
Qed.

(** With a usable core count and no failure other than the two skipped
    ones, the loop returns, and returns the reads that are not idle, each
    divided. *)
Lemma collect_total (d : float) (procs : list (result pinfo)) (acc : list pinfo) :
  float_of_int n = Ok d -> PrimFloat.eqb d 0%float = false ->
  only_skippable procs ->
  for_each (read_process n) procs acc =
    Ok (acc ++ map (fun r => set_cpu_percent r (cpu_percent r / d)%float)
                 (filter (fun r => negb (is_idle r)) (successes procs)))%list.
Proof.
  intros Hd Hz Hs. revert acc.
  induction Hs as [|proc procs Hp Hs IH]; intros acc; simpl.
  - rewrite app_nil_r. reflexivity.
  - destruct proc as [r|e].
    + rewrite read_process_ok. simpl. destruct (is_idle r); simpl.
      * apply IH.
      * unfold float_div_int. rewrite Hd. simpl. rewrite Hz. simpl.
        rewrite IH, <- app_assoc. reflexivity.
    + rewrite read_process_skip by exact Hp. simpl. apply IH.
Qed.

End SamplerFacts.

(** The list built by lines 100-108 holds the stored reads one for one, in
    the order they were enumerated. *)
Lemma collect_order (n : Z) (procs : list (result pinfo)) (acc ps : list pinfo) :
  for_each (read_process n) procs acc = Ok ps ->
  exists l, ps = acc ++ l /\ Forall2 (normalized n) (stored_reads procs) l.
Proof.
  unfold stored_reads. revert acc.
  induction procs as [|proc procs IH]; intros acc; simpl.
  - intros [= <-]. exists []. rewrite app_nil_r. split; constructor.
  - destruct (read_process n acc proc) as [acc1|e] eqn:E; simpl; [|discriminate].
    intros H. destruct (IH _ H) as (l & -> & Hl).
    destruct proc as [r|e].
    + rewrite read_process_ok in E. cbn [List.app filter].
      destruct (is_idle r) eqn:Ei; cbn [negb].
      * injection E as <-. exists l. split; [reflexivity|exact Hl].
      * destruct (float_div_int (cpu_percent r) n) as [c|e] eqn:Ed;
          simpl in E; [|discriminate].
        injection E as <-. exists (set_cpu_percent r c :: l).
        split; [rewrite <- app_assoc; reflexivity|].
        constructor; [|exact Hl]. split; [exact Ed|reflexivity].
    + unfold read_process, try_except, bind in E.
      destruct (catches _ _); [|discriminate].
      injection E as <-. exists l. split; [reflexivity|exact Hl].
Qed.

Lemma Forall2_In_l {X Y : Type} (R : X -> Y -> Prop) (l1 : list X) (l2 : list Y)
    (x : X) :
  Forall2 R l1 l2 -> In x l1 -> exists y, In y l2 /\ R x y.
Proof.
  induction 1 as [|x' y' l1 l2 Hxy _ IH]; intros Hin; [destruct Hin|].
  destruct Hin as [->|Hin].
  - exists y'. split; [left; reflexivity|exact Hxy].
  - destruct (IH Hin) as (y & Hy & Hr). exists y. split; [right; exact Hy|exact Hr].
Qed.

Section SortResult.
Context {A K : Type}.
Variable lt : K -> K -> bool.
Hypothesis lt_asym : forall a b, lt a b = true -> lt b a = false.
Variable key : A -> result K.

Lemma decorate_inv (l : list A) (d : list (K * A)) :
  decorate key l = Ok d ->
  map snd d = l /\ Forall (fun kx => key (snd kx) = Ok (fst kx)) d.
Proof.
  revert d. induction l as [|x l IH]; intros d; simpl.
  - intros [= <-]. split; constructor.
  - destruct (key x) as [k|e] eqn:Ek; simpl; [|discriminate].
    destruct (decorate key l) as [d'|e]; simpl; [|discriminate].
    intros [= <-]. destruct (IH d' eq_refl) as [Hm Hf]. simpl. split.
    + f_equal. exact Hm.
    + constructor; [exact Ek|exact Hf].
Qed.

(** When the keys can be computed, [sort] returns. *)
Lemma decorate_total (l : list A) :
  Forall (fun x => exists k, key x = Ok k) l -> exists d, decorate key l = Ok d.
Proof.
  induction 1 as [|x l [k Hk] _ [d Hd]]; simpl.
  - eexists; reflexivity.
  - rewrite Hk, Hd. simpl. eexists; reflexivity.
Qed.

(** What [l.sort(key=key, reverse=reverse)] leaves in [l] when it returns:
    the same elements, each key in order with the next. *)
Lemma sort_inv (reverse : bool) (l l' : list A) :
  sort lt key reverse l = Ok l' ->
  Permutation l' l /\
  adjacent (fun a b => exists ka kb, key a = Ok ka /\ key b = Ok kb /\
              (if reverse then lt ka kb else lt kb ka) = false) l'.
Proof.
  unfold sort. destruct (decorate key l) as [d|e] eqn:Ed; simpl; [|discriminate].
  intros [= <-]. destruct (decorate_inv l d Ed) as [Hm Hk]. split.
  - rewrite <- Hm. apply Permutation_map, sort_decorated_perm.
  - apply adjacent_map.
    apply adjacent_impl with
      (R := fun x y : K * A => (if reverse then lt (fst x) (fst y)
                                else lt (fst y) (fst x)) = false)
      (P := fun kx : K * A => key (snd kx) = Ok (fst kx)).
    + intros x y Hx Hy H. exists (fst x), (fst y). auto.
    + eapply Permutation_Forall; [|exact Hk].
      symmetry. apply sort_decorated_perm.
    + unfold sort_decorated. destruct reverse.
      * apply (adjacent_rev (fun x y : K * A => lt (fst y) (fst x) = false)).
        apply Sorted_adjacent, sort_keyed_Sorted, lt_asym.
      * apply Sorted_adjacent, sort_keyed_Sorted, lt_asym.
Qed.

End SortResult.

Section SnapshotFacts.

(** Lines 110-111 always return: the records sorted, then cut. *)
Lemma sort_and_limit_spec (ps : list pinfo) :
  exists sorted,
    sort_and_limit ps = Ok (firstn top_limit sorted) /\
    Permutation sorted ps /\
    adjacent (fun p q => (cpu_percent p <? cpu_percent q)%float = false) sorted.
Proof.
  unfold sort_and_limit.
  destruct (decorate_total (fun x => Ok (cpu_percent x)) ps) as [d Hd].
  { apply Forall_forall. intros x _. eexists; reflexivity. }
  destruct (sort PrimFloat.ltb (fun x => Ok (cpu_percent x)) true ps)
    as [sorted|e] eqn:Es.
  - exists sorted. split; [reflexivity|].
    destruct (sort_inv PrimFloat.ltb ltb_asym _ true ps sorted Es) as [Hp Ha].
    split; [exact Hp|].
    intros i p q Hp' Hq'. destruct (Ha i p q Hp' Hq') as (ka & kb & [= <-] & [= <-] & H).
    exact H.
  - unfold sort in Es. rewrite Hd in Es. discriminate.
Qed.

Lemma descending_of_not_lt (ps : list pinfo) :
  Forall (fun p => is_nan (cpu_percent p) = false) ps ->
  adjacent (fun p q => (cpu_percent p <? cpu_percent q)%float = false) ps ->
  descending_cpu ps.
Proof.
  intros Hn. apply adjacent_impl with (P := fun p => is_nan (cpu_percent p) = false).
  - intros p q Hp Hq H. apply not_ltb_leb; assumption.
  - exact Hn.
Qed.

(** What [take_snapshot] did when it returned. *)
Lemma take_snapshot_inv (n : Z) (b : reading) (s : snapshot) :
  take_snapshot n b = Ok s ->
  exists cpu memory procs collected sorted,
    r_cpu_percent b = Ok cpu /\ r_virtual_memory b = Ok memory /\
    r_process_iter b = Ok procs /\
    collect_processes n procs = Ok collected /\
    Permutation sorted collected /\
    adjacent (fun p q => (cpu_percent p <? cpu_percent q)%float = false) sorted /\
    s = (cpu, memory, firstn top_limit sorted).
Proof.
  unfold take_snapshot.
  destruct (r_cpu_percent b) as [cpu|e]; simpl; [|discriminate].
  destruct (r_virtual_memory b) as [memory|e]; simpl; [|discriminate].
  destruct (r_process_iter b) as [procs|e]; simpl; [|discriminate].
  destruct (collect_processes n procs) as [collected|e] eqn:Ec; simpl;
    [|discriminate].
  destruct (sort_and_limit_spec collected) as (sorted & -> & Hp & Ha). simpl.
  intros [= <-]. exists cpu, memory, procs, collected, sorted.
  repeat split; assumption || reflexivity.
Qed.

End SnapshotFacts.

(** ** The snapshot: claims C1, C4, C6 *)

Lemma Forall_take {X : Type} (P : X -> Prop) (k : nat) (l : list X) :
  Forall P l -> Forall P (firstn k l).
Proof.
  intros H. revert k. induction H as [|x l Hx _ IH]; intros [|k]; simpl;
    constructor; auto.
Qed.

Lemma not_idle_names (r : pinfo) :
  is_idle r = false ->
  lower (name r) <> "system idle process" /\ lower (name r) <> "idle".
Proof.
  unfold is_idle, str_in, idle_names; simpl. intros H.
  apply orb_false_iff in H. destruct H as [H1 H2].
  apply orb_false_iff in H2. destruct H2 as [H2 _].
  split; apply String.eqb_neq; assumption.
Qed.

(** C1. Every snapshot one cycle of the sampler produces holds at most 50
    records, in descending order of the normalized [cpu_percent] (each record's
    value is at least the next one's; the cut to 50 is taken on the sorted
    list), none of them named "system idle process" or "idle" once lowercased.
    The raw readings are numbers (no NaN). *)
Theorem C1_snapshot_invariants (n : Z) (b : reading) (s : snapshot) :
  (forall procs r, r_process_iter b = Ok procs -> In (Ok r) procs ->
                   is_nan (cpu_percent r) = false) ->
  take_snapshot n b = Ok s ->
  (List.length (snapshot_processes s) <= 50)%nat /\
  descending_cpu (snapshot_processes s) /\
  Forall (fun p => lower (name p) <> "system idle process" /\
                   lower (name p) <> "idle") (snapshot_processes s) /\
  exists procs collected sorted,
    r_process_iter b = Ok procs /\
    collect_processes n procs = Ok collected /\
    Permutation sorted collected /\ descending_cpu sorted /\
    snapshot_processes s = firstn 50 sorted.
Proof.
  intros Hnan Hs.
  destruct (take_snapshot_inv n b s Hs)
    as (cpu & memory & procs & collected & sorted & _ & _ & Hp & Hc & Hperm & Ha & ->).
  destruct (collect_inv n procs [] collected Hc) as (l & Hl & Hall).
  simpl in Hl. subst l.
  assert (Hsorted : Forall (fun p => exists r, In (Ok r) procs /\
            is_idle r = false /\ normalized n r p) sorted).
  { eapply Permutation_Forall; [symmetry; exact Hperm|exact Hall]. }
  assert (Hnn : Forall (fun p => is_nan (cpu_percent p) = false) sorted).
  { eapply Forall_impl; [|exact Hsorted]. intros p (r & Hr & _ & Hdiv & _).
    eapply float_div_int_not_nan; [exact (Hnan procs r Hp Hr)|exact Hdiv]. }
  assert (Hd : descending_cpu sorted) by (apply descending_of_not_lt; assumption).
  unfold snapshot_processes; cbn [snd]. repeat split.
  - apply firstn_le_length.
  - apply adjacent_firstn, Hd.
  - apply Forall_take. eapply Forall_impl; [|exact Hsorted].
    intros p (r & _ & Hi & _ & Hp'). rewrite Hp'. apply (not_idle_names r Hi).
  - exists procs, collected, sorted. repeat split; assumption.
Qed.

Lemma C1_snapshot_invariants_witness :
  (List.length (snapshot_processes Examples.snapshot4) <= 50)%nat /\
  descending_cpu (snapshot_processes Examples.snapshot4) /\
  Forall (fun p => lower (name p) <> "system idle process" /\
                   lower (name p) <> "idle")
    (snapshot_processes Examples.snapshot4).
Proof.
  destruct (C1_snapshot_invariants 4 Examples.backend4 Examples.snapshot4)
    as (H1 & H2 & H3 & _).
  - intros procs r [= <-] Hin. simpl in Hin.
    destruct Hin as [[= <-]|[[=]|[[= <-]|[[= <-]|[]]]]]; reflexivity.
  - vm_compute. reflexivity.
  - exact (conj H1 (conj H2 H3)).
Defined.

Lemma float_div_int_ok (x : float) (n : Z) (y : float) :
  float_div_int x n = Ok y ->
  exists d, float_of_int n = Ok d /\ y = (x / d)%float.
Proof.
  unfold float_div_int. destruct (float_of_int n) as [d|e]; simpl; [|discriminate].
  destruct (PrimFloat.eqb d 0%float); [discriminate|].
  intros [= <-]. exists d. split; reflexivity.
Qed.

(** C4. Every raw reading is stored divided by the core count.  In a cycle
    that publishes a snapshot for [n] cores, the list the cycle collects holds
    one record for each process that was read and is not an idle entry, in the
    order read, and that record is the reading with its [cpu_percent]
    replaced by raw / float(n); the snapshot is the first 50 of these records
    once sorted, so the record of every reading is in it when there are at
    most 50.  Conversely every record of the snapshot is a reading divided by
    float(n).  The core count is one parameter of the whole cycle.  On 4
    cores a raw 400 is stored as exactly 100.0: the division gives it, and the
    snapshot of a cycle that read it holds it. *)
Theorem C4_cpu_normalization (n : Z) (b : reading) (s : snapshot) :
  take_snapshot n b = Ok s ->
  (exists procs collected sorted,
     r_process_iter b = Ok procs /\
     collect_processes n procs = Ok collected /\
     Forall2 (normalized n) (stored_reads procs) collected /\
     Permutation sorted collected /\
     snapshot_processes s = firstn 50 sorted /\
     forall r, In r (stored_reads procs) ->
       exists d, float_of_int n = Ok d /\
         In (set_cpu_percent r (cpu_percent r / d)%float) collected /\
         ((List.length (stored_reads procs) <= 50)%nat ->
          In (set_cpu_percent r (cpu_percent r / d)%float)
            (snapshot_processes s))) /\
  Forall (fun p => exists procs r d,
            r_process_iter b = Ok procs /\ In (Ok r) procs /\
            float_of_int n = Ok d /\
            cpu_percent p = (cpu_percent r / d)%float /\
            p = set_cpu_percent r (cpu_percent r / d)%float)
    (snapshot_processes s) /\
  float_div_int 400%float 4 = Ok 100%float /\
  take_snapshot 4
    (Reading (Ok 25%float) (Ok Examples.memory4)
       (Ok [Ok (Pinfo 11 "beta" 400%float (Some (Pmem 2097152)) "sleeping")])) =
    Ok (25%float, Examples.memory4,
        [Pinfo 11 "beta" 100%float (Some (Pmem 2097152)) "sleeping"]).
Proof.
  intros Hs.
  split; [|split; [|split; vm_compute; reflexivity]];
    destruct (take_snapshot_inv n b s Hs)
      as (cpu & memory & procs & collected & sorted & _ & _ & Hp & Hc & Hperm & _ & ->).
  - destruct (collect_order n procs [] collected Hc) as (l & Hl & Hall).
    simpl in Hl. subst l. exists procs, collected, sorted.
    split; [exact Hp|]. split; [exact Hc|]. split; [exact Hall|].
    split; [exact Hperm|]. split; [reflexivity|]. intros r Hr.
    destruct (Forall2_In_l _ _ _ r Hall Hr) as (p & Hin & Hdiv & Hset).
    destruct (float_div_int_ok _ _ _ Hdiv) as (d & Hd & Hy).
    rewrite Hy in Hset. exists d. rewrite <- Hset.
    split; [exact Hd|]. split; [exact Hin|]. intros Hlen.
    unfold snapshot_processes; cbn [snd]. unfold top_limit.
    rewrite firstn_all2.
    + apply (Permutation_in _ (Permutation_sym Hperm)). exact Hin.
    + rewrite (Permutation_length Hperm), <- (Forall2_length Hall). exact Hlen.
  - destruct (collect_inv n procs [] collected Hc) as (l & Hl & Hall).
    simpl in Hl. subst l. unfold snapshot_processes; cbn [snd].
    apply Forall_take. eapply Permutation_Forall; [symmetry; exact Hperm|].
    eapply Forall_impl; [|exact Hall]. intros p (r & Hr & _ & Hdiv & Hset).
    destruct (float_div_int_ok _ _ _ Hdiv) as (d & Hd & Hy).
    exists procs, r, d. rewrite Hy in Hset |- *. auto.
Qed.

Lemma C4_cpu_normalization_witness :
  exists d,
    float_of_int 4 = Ok d /\
    In (set_cpu_percent
          (Pinfo 11 "beta" 400%float (Some (Pmem 2097152)) "sleeping")
          (400 / d)%float)
      (snapshot_processes Examples.snapshot4) /\
    (400 / d)%float = 100%float.
Proof.
  destruct (C4_cpu_normalization 4 Examples.backend4 Examples.snapshot4)
    as ((procs & collected & sorted & Hp & _ & _ & _ & _ & H) & _).
  - vm_compute. reflexivity.
  - injection Hp as <-.
    destruct (H (Pinfo 11 "beta" 400%float (Some (Pmem 2097152)) "sleeping"))
      as (d & Hd & _ & Hin).
    + vm_compute. right. left. reflexivity.
    + exists d. split; [exact Hd|]. split.
      * apply Hin. vm_compute. repeat constructor.
      * vm_compute in Hd. injection Hd as <-. vm_compute. reflexivity.
Defined.

Lemma collect_processes_skip (n : Z) (before after : list (result pinfo)) (e : exn) :
  catches [NoSuchProcess; AccessDenied] (exn_cls e) = true ->
  collect_processes n (before ++ Raise e :: after) =
  collect_processes n (before ++ after).
Proof.
  intros He. unfold collect_processes. rewrite !for_each_app.
  destruct (for_each (read_process n) before []) as [acc|e']; simpl;
    [|reflexivity].
  rewrite read_process_skip by exact He. reflexivity.
Qed.

(** C6, where the code misses it.  [process_iter] is called with the list of
    attributes and reads them itself: a process that vanished is left out by
    the iterator, and one whose attributes are denied is yielded with None in
    their place, so line 103 does not raise and the clause of line 107 does
    not run for it.  The first use of the name, at line 104, raises on None an
    exception that line 107 does not name: the cycle is lost for every
    process, no snapshot is published, the error is printed and the loop
    waits one second.  The clause does what the claim says for the exceptions
    it names: had the read raised NoSuchProcess or AccessDenied, the cycle
    would have gone on as if the process had not been enumerated, and the
    snapshot of the other processes would have been published. *)
Theorem C6_denied_read_loses_the_cycle :
  take_snapshot 4 Examples.backend_denied =
    Raise (Exn AttributeError "'NoneType' object has no attribute 'lower'") /\
  iteration 4 Examples.cycle_denied =
    [Print "Error in update thread: 'NoneType' object has no attribute 'lower'";
     Sleep 1] /\
  iteration 4 Examples.cycle_good = [Put Examples.snapshot4; Sleep 0.5] /\
  (forall n cpu memory before after acc,
     collect_processes n before = Ok acc ->
     take_snapshot n
       (Reading (Ok cpu) (Ok memory) (Ok (before ++ access_denied_info :: after))) =
       Raise (Exn AttributeError "'NoneType' object has no attribute 'lower'")) /\
  (forall n cpu memory before after e,
     exn_cls e = NoSuchProcess \/ exn_cls e = AccessDenied ->
     take_snapshot n
       (Reading (Ok cpu) (Ok memory) (Ok (before ++ Raise e :: after))) =
     take_snapshot n (Reading (Ok cpu) (Ok memory) (Ok (before ++ after)))).
Proof.
  split; [vm_compute; reflexivity|]. split; [vm_compute; reflexivity|].
  split; [vm_compute; reflexivity|]. split.
  - intros n cpu memory before after acc Hb. unfold take_snapshot. cbn [bind r_cpu_percent r_virtual_memory r_process_iter].
    unfold collect_processes in *. rewrite for_each_app, Hb. reflexivity.
  - intros n cpu memory before after e He.
    assert (Hc : catches [NoSuchProcess; AccessDenied] (exn_cls e) = true)
      by (destruct He as [-> | ->]; reflexivity).
    unfold take_snapshot; simpl. rewrite collect_processes_skip by exact Hc.
    reflexivity.
Qed.

(** ** The loop of the sampler: claims C7, C8 *)

Section LoopFacts.
Variable n : Z.

Lemma update_loop_cons (c : cycle) (cs : list cycle) :
  running c ->
  update_loop n (c :: cs) =
    (iteration n c ++ fst (update_loop n cs), snd (update_loop n cs)).
Proof.
  unfold running. intros H. simpl. rewrite H.
  destruct (update_loop n cs). reflexivity.
Qed.

Lemma update_loop_app (before cs : list cycle) :
  Forall running before ->
  update_loop n (before ++ cs) =
    (flat_map (iteration n) before ++ fst (update_loop n cs),
     snd (update_loop n cs)).
Proof.
  induction 1 as [|c before Hc _ IH]; cbn [List.app].
  - destruct (update_loop n cs). reflexivity.
  - rewrite update_loop_cons by exact Hc. rewrite IH. simpl.
    rewrite app_assoc. reflexivity.
Qed.




Lemma sleep_ok (d : float) (ev : sampler_event) : sleep d = Ok ev -> ev = Sleep d.
Proof.
  unfold sleep. destruct (is_nan d); [discriminate|].
  destruct (_ || _); [discriminate|].
  destruct (d <? 0)%float; [discriminate|]. intros [= <-]. reflexivity.
Qed.

End LoopFacts.



(** C8, as the code has it. A cycle that publishes a snapshot then reads the
    interval variable and sleeps for exactly the value read, unchanged; the
    value read in one cycle shapes the events of that cycle only, the cycles
    before and after it being what they are without it. The variable starts at
    0.5, inside the range [0.1, 5.0] of the spinbox arrows. *)
Theorem C8_interval_read_each_cycle (n : Z) (before : list cycle) (c : cycle)
    (after : list cycle) (s : snapshot) (d : float) (ev : sampler_event) :
  Forall running before -> running c ->
  take_snapshot n (c_backend c) = Ok s ->
  c_refresh_rate c = Ok d -> sleep d = Ok ev ->
  iteration n c = [Put s; Sleep d] /\
  fst (update_loop n (before ++ c :: after)) =
    flat_map (iteration n) before ++ [Put s; Sleep d] ++ fst (update_loop n after) /\
  refresh_rate_initial = 0.5%float /\
  (spinbox_from <=? refresh_rate_initial)%float = true /\
  (refresh_rate_initial <=? spinbox_to)%float = true.
Proof.
  intros Hb Hc Hs Hd Hsl.
  assert (Hi : iteration n c = [Put s; Sleep d]).
  { unfold iteration, try_body. rewrite Hs, Hd. simpl. rewrite Hsl.
    rewrite (sleep_ok d ev Hsl). reflexivity. }
  split; [exact Hi|]. split; [|repeat split; reflexivity].
  rewrite update_loop_app by exact Hb. rewrite update_loop_cons by exact Hc.
  simpl fst. rewrite Hi. reflexivity.
Qed.

Lemma C8_interval_read_each_cycle_witness :
  iteration 4 Examples.cycle_good = [Put Examples.snapshot4; Sleep 0.5].
Proof.
  apply (C8_interval_read_each_cycle 4 [] Examples.cycle_good []
           Examples.snapshot4 0.5%float (Sleep 0.5)).
  - constructor.
  - reflexivity.
  - vm_compute. reflexivity.
  - reflexivity.
  - vm_compute. reflexivity.
Defined.

(** C8 as stated fails: when the variable holds 7.5 the sampler sleeps 7.5
    seconds, above the 5.0 of the claimed range. *)
Lemma C8_counterexample :
  iteration 4 Examples.cycle_slow = [Put Examples.snapshot4; Sleep 7.5] /\
  (spinbox_to <? 7.5)%float = true.
Proof. split; vm_compute; reflexivity. Qed.

(** ** Rendering: claim C9 *)

(** C9. A memory sample of 8_000_000_000 used and 16_000_000_000 total bytes
    at 50 percent is shown as "Memory: 50.0% (7629 MB / 15258 MB)", the MB being
    the bytes floor-divided by 1_048_576; the record of pid 1234, "worker",
    cpu 12.34, 52_428_800 resident bytes, "running" becomes the row
    ("1234", "worker", "12.3", "50.0", "running"). *)
Theorem C9_rendering_scenario :
  8000000000 / (1024 * 1024) = 7629 /\
  16000000000 / (1024 * 1024) = 15258 /\
  memory_text (Svmem 16000000000 8000000000 50%float) =
    "Memory: 50.0% (7629 MB / 15258 MB)"%string /\
  int_truediv 52428800 (1024 * 1024) = Ok 50%float /\
  displayed (snd ((put Examples.snapshot_worker ;;; check_updates) (init 4))) =
    ("CPU: 12.5% (Cores: 4)"%string,
     "Memory: 50.0% (7629 MB / 15258 MB)"%string,
     "Processes: 1"%string,
     [["1234"; "worker"; "12.3"; "50.0"; "running"]%string]).
Proof. repeat split; vm_compute; reflexivity. Qed.

(** ** Terminating a process: claims C5, C10 *)

Section TerminateFacts.
Variable w : world.
Variable a : app.

Lemma terminate_no_selection :
  selected (tree a) = [] ->
  terminate_process w a =
    emit (ShowWarning "No Selection" "Please select a process to terminate.") a.
Proof. intros H. unfold terminate_process, mbind, get. rewrite H. reflexivity. Qed.

Lemma terminate_declined (k : iid) (rest : list iid) (v : values) :
  selected (tree a) = k :: rest -> find_item (tree a) k = Some v ->
  w_confirm w = false ->
  terminate_process w a = emit (confirm_question (v_pid v)) a.
Proof.
  intros Hs Hf Hc. unfold terminate_process, mbind, get, lift, item_values.
  rewrite Hs, Hf, Hc. reflexivity.
Qed.

End TerminateFacts.

(** C5. Once a row is selected and the operator confirms, the command
    returns without raising, leaves the widgets as they were, and closes with
    exactly one result dialog: the success note when both calls return, and
    otherwise an error dialog that tells the three kinds of failure apart: the
    "no longer exists" text if and only if NoSuchProcess was raised, the
    "Access denied" text if and only if AccessDenied was raised, and the
    "Failed to terminate process" text with the reason if and only if it was
    any other exception. *)
Theorem C5_terminate_outcome_surfaced (w : world) (a : app) (k : iid)
    (rest : list iid) (v : values) :
  selected (tree a) = k :: rest -> find_item (tree a) k = Some v ->
  w_confirm w = true ->
  exists a' attempt final,
    terminate_process w a = (Ok tt, a') /\ same_widgets a a' /\
    trace a' = trace a ++ [confirm_question (v_pid v)] ++ attempt ++ [final] /\
    (forall ev, In ev attempt -> ev = OsTerminate (v_pid v)) /\
    (os_outcome w (v_pid v) = Ok tt ->
     final = ShowInfo "Success"
               ("Process " ++ str_int (v_pid v) ++ " terminated.")%string) /\
    (forall e, os_outcome w (v_pid v) = Raise e ->
       (exn_cls e = NoSuchProcess <->
        final = ShowError "Error" "Process no longer exists.") /\
       (exn_cls e = AccessDenied <->
        final = ShowError "Error" "Access denied. Run as Administrator.") /\
       (exn_cls e <> NoSuchProcess /\ exn_cls e <> AccessDenied <->
        final = ShowError "Error"
                  ("Failed to terminate process: " ++ exn_str e)%string)).
Proof.
  intros Hs Hf Hc.
  unfold terminate_process, mbind, get, lift, item_values, os_outcome.
  rewrite Hs, Hf, Hc. unfold mtry_Exception, mbind, lift, emit, bind. simpl.
  destruct (w_process w (v_pid v)) as [[]|e1].
  - destruct (w_terminate w (v_pid v)) as [[]|e2].
    + eexists _, [OsTerminate (v_pid v)], _. split; [reflexivity|].
      split; [repeat split|]. simpl. rewrite <- !app_assoc. simpl.
      split; [reflexivity|]. split.
      * intros ev [<-|[]]. reflexivity.
      * split; [reflexivity|discriminate].
    + destruct e2 as [c msg].
      destruct c; simpl;
        (eexists _, [OsTerminate (v_pid v)], _; split; [reflexivity|];
         split; [repeat split|]; simpl; rewrite <- !app_assoc; simpl;
         split; [reflexivity|]; split; [intros ev [<-|[]]; reflexivity|];
         split; [discriminate|]; intros e [= <-]; simpl;
         repeat split; intros; try discriminate; try reflexivity;
         try tauto; try (exfalso; intuition congruence)).
  - destruct e1 as [c msg].
    destruct c; simpl;
      (eexists _, [], _; split; [reflexivity|];
       split; [repeat split|]; simpl; rewrite <- !app_assoc; simpl;
       split; [reflexivity|]; split; [intros ev []|];
       split; [discriminate|]; intros e [= <-]; simpl;
       repeat split; intros; try discriminate; try reflexivity;
       try tauto; try (exfalso; intuition congruence)).
Qed.

Lemma C5_terminate_outcome_surfaced_witness :
  exists a',
    terminate_process Examples.world_gone Examples.app_two_rows = (Ok tt, a') /\
    same_widgets Examples.app_two_rows a' /\
    trace a' = [confirm_question 11;
                ShowError "Error" "Process no longer exists."].
Proof.
  destruct (C5_terminate_outcome_surfaced Examples.world_gone
              Examples.app_two_rows 1%nat [] (Values 11 "beta" "100.0" "2.0" "sleeping"))
    as (a' & attempt & final & H1 & H2 & _).
  - reflexivity.
  - reflexivity.
  - reflexivity.
  - exists a'. split; [exact H1|]. split; [exact H2|].
    vm_compute in H1. injection H1 as <-. reflexivity.
Defined.

(** C10. With no row selected the command shows the warning and returns;
    when the operator declines it shows the question only. In both cases, and
    in every other, the labels, the table and the queue are left as they were;
    and [terminate()] is called on a pid only if a row was selected, the
    question for that pid was asked and the answer was yes. *)
Theorem C10_no_signal_without_confirmation (w : world) (a : app) :
  (selected (tree a) = [] ->
   exists a', terminate_process w a = (Ok tt, a') /\ same_widgets a a' /\
     trace a' = trace a ++
       [ShowWarning "No Selection" "Please select a process to terminate."]) /\
  (forall k rest v,
     selected (tree a) = k :: rest -> find_item (tree a) k = Some v ->
     w_confirm w = false ->
     exists a', terminate_process w a = (Ok tt, a') /\ same_widgets a a' /\
       trace a' = trace a ++ [confirm_question (v_pid v)]) /\
  (forall r a', terminate_process w a = (r, a') ->
     same_widgets a a' /\
     exists events, trace a' = trace a ++ events /\
       forall pid, In (OsTerminate pid) events ->
         selected (tree a) <> [] /\ w_confirm w = true /\
         exists before rest, events = before ++ OsTerminate pid :: rest /\
           In (confirm_question pid) before).
Proof.
  split; [|split].
  - intros Hs. rewrite (terminate_no_selection w a Hs).
    eexists. split; [reflexivity|]. split; [repeat split|reflexivity].
  - intros k rest v Hs Hf Hc. rewrite (terminate_declined w a k rest v Hs Hf Hc).
    eexists. split; [reflexivity|]. split; [repeat split|reflexivity].
  - intros r a'. destruct (selected (tree a)) as [|k rest] eqn:Hs.
    { rewrite (terminate_no_selection w a Hs). intros [= <- <-].
      split; [repeat split|]. eexists. split; [reflexivity|].
      intros pid [H|[]]. discriminate H. }
    destruct (find_item (tree a) k) as [v|] eqn:Hf.
    2:{ unfold terminate_process, mbind, get, lift, item_values.
        rewrite Hs, Hf. intros [= <- <-]. split; [repeat split|].
        exists []. split; [symmetry; apply app_nil_r|]. intros pid []. }
    destruct (w_confirm w) eqn:Hc.
    2:{ rewrite (terminate_declined w a k rest v Hs Hf Hc). intros [= <- <-].
        split; [repeat split|]. eexists. split; [reflexivity|].
        intros pid [H|[]]. discriminate H. }
    unfold terminate_process, mbind, get, lift, item_values.
    rewrite Hs, Hf, Hc. unfold mtry_Exception, mbind, lift, emit, bind. simpl.
    destruct (w_process w (v_pid v)) as [[]|e1].
    + assert (Hgen : forall final pid,
                (forall p, final <> OsTerminate p) ->
                In (OsTerminate pid)
                   [confirm_question (v_pid v); OsTerminate (v_pid v); final] ->
                k :: rest <> [] /\ true = true /\
                exists before rest0,
                  [confirm_question (v_pid v); OsTerminate (v_pid v); final] =
                    before ++ OsTerminate pid :: rest0 /\
                  In (confirm_question pid) before).
      { intros final pid Hfin Hin. split; [discriminate|]. split; [reflexivity|].
        destruct Hin as [H|[H|[H|[]]]];
          [discriminate H| |exfalso; exact (Hfin pid H)].
        injection H as <-. exists [confirm_question (v_pid v)], [final].
        split; [reflexivity|]. left. reflexivity. }
      destruct (w_terminate w (v_pid v)) as [[]|e2].
      * intros [= <- <-]. split; [repeat split|]. simpl.
        eexists. split; [rewrite <- !app_assoc; reflexivity|].
        intros pid Hin. apply (Hgen _ pid); [discriminate|exact Hin].
      * destruct e2 as [c msg]. destruct c; simpl; intros [= <- <-];
          (split; [repeat split|]; simpl;
           eexists; split; [rewrite <- !app_assoc; reflexivity|];
           intros pid Hin; apply (Hgen _ pid); [discriminate|exact Hin]).
    + destruct e1 as [c msg]. destruct c; simpl; intros [= <- <-];
        (split; [repeat split|]; simpl;
         eexists; split; [rewrite <- !app_assoc; reflexivity|];
         intros pid [H|[H|[]]]; discriminate H).
Qed.

Lemma C10_no_signal_without_confirmation_witness :
  (exists a', terminate_process Examples.world_gone Examples.app_no_selection
                = (Ok tt, a') /\
     same_widgets Examples.app_no_selection a' /\
     trace a' =
       [ShowWarning "No Selection" "Please select a process to terminate."]) /\
  (exists a', terminate_process Examples.world_declined Examples.app_two_rows
                = (Ok tt, a') /\
     same_widgets Examples.app_two_rows a' /\
     trace a' = [confirm_question 11]).
Proof.
  split.
  - destruct (C10_no_signal_without_confirmation Examples.world_gone
                Examples.app_no_selection) as (H & _ & _).
    apply H. reflexivity.
  - destruct (C10_no_signal_without_confirmation Examples.world_declined
                Examples.app_two_rows) as (_ & H & _).
    apply (H 1%nat [] (Values 11 "beta" "100.0" "2.0" "sleeping"));
      reflexivity.
Defined.

(** ** Draining the queue: claim C2 *)

Section DrainFacts.

Lemma same_but_rows_refl (a : app) : same_but_rows a a.
Proof. repeat split. Qed.

Lemma same_but_rows_trans (a b c : app) :
  same_but_rows a b -> same_but_rows b c -> same_but_rows a c.
Proof.
  unfold same_but_rows. intros (H1 & H2 & H3 & H4 & H5 & H6) (G1 & G2 & G3 & G4 & G5 & G6).
  repeat split; congruence.
Qed.

Lemma find_item_In (t : treeview) (k : iid) :
  In k (get_children t) -> exists v, find_item t k = Some v.
Proof.
  unfold get_children, find_item. induction (children t) as [|[k' v'] l IH]; simpl.
  - intros [].
  - intros [<-|H].
    + rewrite Nat.eqb_refl. simpl. eauto.
    + destruct (Nat.eqb k' k); simpl; [eauto|apply IH, H].
Qed.

Lemma map_fst_combine {X Y : Type} (xs : list X) (ys : list Y) :
  List.length xs = List.length ys -> map fst (combine xs ys) = xs.
Proof.
  revert ys. induction xs as [|x xs IH]; intros [|y ys]; simpl;
    try reflexivity; try discriminate.
  intros [= H]. f_equal. apply IH, H.
Qed.

Lemma map_snd_combine {X Y : Type} (xs : list X) (ys : list Y) :
  List.length xs = List.length ys -> map snd (combine xs ys) = ys.
Proof.
  revert ys. induction xs as [|x xs IH]; intros [|y ys]; simpl;
    try reflexivity; try discriminate.
  intros [= H]. f_equal. apply IH, H.
Qed.

(** Removing the items named in a list that names them all leaves nothing. *)
Lemma filter_own_ids (ks : list nat) (l : list (nat * values)) :
  incl (map fst l) ks ->
  filter (fun it => negb (existsb (Nat.eqb (fst it)) ks)) l = [].
Proof.
  induction l as [|it l IH]; intros H; [reflexivity|].
  assert (He : existsb (Nat.eqb (fst it)) ks = true).
  { apply existsb_exists. exists (fst it).
    split; [apply H; left; reflexivity|apply Nat.eqb_refl]. }
  cbn [filter]. rewrite He. cbn [negb]. apply IH.
  intros k Hk. apply H. right. exact Hk.
Qed.

Lemma filter_ids_cons (k : nat) (ks : list nat) (l : list (nat * values)) :
  filter (fun it => negb (existsb (Nat.eqb (fst it)) ks))
    (filter (fun it => negb (Nat.eqb (fst it) k)) l) =
  filter (fun it => negb (existsb (Nat.eqb (fst it)) (k :: ks))) l.
Proof.
  induction l as [|it l IH]; [reflexivity|]. cbn [filter existsb].
  destruct (Nat.eqb (fst it) k); cbn [negb orb filter]; [exact IH|].
  destruct (existsb (Nat.eqb (fst it)) ks); cbn [negb]; [exact IH|].
  f_equal. exact IH.
Qed.

(** Lines 133-134 on a table whose items are distinct: every row goes. *)
Lemma delete_loop (ks : list iid) (a : app) :
  NoDup ks -> incl ks (get_children (tree a)) ->
  exists a',
    mfor ks (fun item => on_tree (fun t => delete t item)) a = (Ok tt, a') /\
    same_but_rows a a' /\ trace a' = trace a /\
    serial (tree a') = serial (tree a) /\
    children (tree a') =
      filter (fun it => negb (existsb (Nat.eqb (fst it)) ks)) (children (tree a)).
Proof.
  intros Hnd. revert a. induction Hnd as [|k ks Hk Hnd IH]; intros a Hin; simpl.
  - exists a. split; [reflexivity|]. split; [apply same_but_rows_refl|].
    split; [reflexivity|]. split; [reflexivity|].
    induction (children (tree a)) as [|it l IHl]; simpl;
      [reflexivity|f_equal; exact IHl].
  - destruct (find_item_In (tree a) k (Hin k (or_introl eq_refl))) as [v Hv].
    unfold mbind at 1, on_tree, mbind, get, lift, delete. rewrite Hv. simpl.
    set (a1 := App _ _ _ _ _ _ _).
    destruct (IH a1) as (a' & Hrun & Hsame & Htrace & Hserial & Hch).
    { intros k' Hk'. unfold a1, get_children; simpl.
      assert (Hk0 : In k' (get_children (tree a))) by (apply Hin; right; exact Hk').
      unfold get_children in Hk0. apply in_map_iff in Hk0.
      destruct Hk0 as ([k0 v0] & <- & Hi). apply in_map_iff.
      exists (k0, v0). split; [reflexivity|]. apply filter_In. split; [exact Hi|].
      simpl. apply negb_true_iff, Nat.eqb_neq. intros ->. exact (Hk Hk'). }
    exists a'. split; [exact Hrun|]. split.
    { eapply same_but_rows_trans; [|exact Hsame]. repeat split. }
    split; [exact Htrace|]. split; [exact Hserial|].
    rewrite Hch. unfold a1; simpl. apply filter_ids_cons.
Qed.

Lemma insert_process_row (p : pinfo) (m : pmem) (memory_mb : float) (a : app) :
  memory_info p = Some m -> int_truediv (rss m) (1024 * 1024) = Ok memory_mb ->
  row_of p = [Values (pid p) (name p) (format_1f (cpu_percent p))
                (format_1f memory_mb) (status p)] /\
  insert_process p a =
    set_tree (insert_end (tree a)
                (Values (pid p) (name p) (format_1f (cpu_percent p))
                   (format_1f memory_mb) (status p))) a.
Proof.
  intros Hm Hd. unfold row_of, insert_process, mtry, mbind, lift, on_tree, mbind, get, lift.
  rewrite Hm, Hd. split; reflexivity.
Qed.

Lemma insert_process_skip (p : pinfo) (a : app) :
  memory_info p = None ->
  row_of p = [] /\
  insert_process p a =
    emit (Printed "Error processing process data: 'NoneType' object has no attribute 'rss'") a.
Proof.
  intros Hm. unfold row_of, insert_process, mtry, mbind, lift.
  rewrite Hm. split; reflexivity.
Qed.

(** Lines 137-149: each record that has a resident size adds its row at the
    end, under the next serial number. *)
Lemma insert_loop (ps : list pinfo) (a : app) :
  Forall renders ps ->
  exists a',
    mfor ps insert_process a = (Ok tt, a') /\
    same_but_rows a a' /\
    serial (tree a') = (serial (tree a) + List.length (flat_map row_of ps))%nat /\
    children (tree a') =
      children (tree a) ++
      combine (seq (S (serial (tree a))) (List.length (flat_map row_of ps)))
        (flat_map row_of ps).
Proof.
  intros Hr. revert a. induction Hr as [|p ps Hp _ IH]; intros a.
  - exists a. split; [reflexivity|]. split; [apply same_but_rows_refl|].
    simpl. split; [lia|]. rewrite app_nil_r. reflexivity.
  - cbn [mfor flat_map]. unfold mbind at 1.
    unfold renders in Hp. destruct (memory_info p) as [m|] eqn:Em.
    + destruct Hp as [mb Hmb].
      destruct (insert_process_row p m mb a Em Hmb) as [-> ->].
      unfold set_tree. set (a1 := App _ _ _ _ _ _ _).
      destruct (IH a1) as (a' & Hrun & Hsame & Hserial & Hch).
      exists a'. split; [exact Hrun|]. split.
      { eapply same_but_rows_trans; [|exact Hsame]. repeat split. }
      split.
      { rewrite Hserial. unfold a1; simpl. lia. }
      rewrite Hch. unfold a1; simpl. rewrite <- app_assoc. reflexivity.
    + destruct (insert_process_skip p a Em) as [-> ->].
      unfold emit. set (a1 := App _ _ _ _ _ _ _).
      destruct (IH a1) as (a' & Hrun & Hsame & Hserial & Hch).
      exists a'. split; [exact Hrun|]. split.
      { eapply same_but_rows_trans; [|exact Hsame]. repeat split. }
      split; [exact Hserial|exact Hch].
Qed.

(** Lines 125-149 on a table whose items are distinct: the labels and the
    rows are those of the snapshot, whatever was shown before. *)
Lemma show_snapshot_spec (s : snapshot) (a : app) :
  NoDup (get_children (tree a)) -> Forall renders (snapshot_processes s) ->
  exists a',
    show_snapshot s a = (Ok tt, a') /\
    num_cores a' = num_cores a /\ update_queue a' = update_queue a /\
    displayed a' = shown (num_cores a) s /\
    NoDup (get_children (tree a')).
Proof.
  intros Hnd Hr. destruct s as [[cpu memory] processes].
  unfold snapshot_processes in Hr; simpl in Hr.
  set (a1 := App (num_cores a) (update_queue a) (cpu_text (num_cores a) cpu)
               (memory_text memory) (process_count_text processes) (tree a)
               (trace a)).
  change (show_snapshot (cpu, memory, processes) a) with
    ((mfor (get_children (tree a1))
        (fun item => on_tree (fun t => delete t item)) ;;;
      mfor processes insert_process) a1).
  destruct (delete_loop (get_children (tree a1)) a1 Hnd) as
    (a2 & Hrun2 & Hsame2 & _ & Hserial2 & Hch2).
  { intros k Hk. exact Hk. }
  unfold mbind. rewrite Hrun2.
  destruct (insert_loop processes a2 Hr) as (a3 & Hrun3 & Hsame3 & Hserial3 & Hch3).
  rewrite Hrun3. exists a3. split; [reflexivity|].
  assert (Hempty : children (tree a2) = []).
  { rewrite Hch2. apply filter_own_ids. intros k Hk. exact Hk. }
  destruct Hsame2 as (C2 & Q2 & L2 & M2 & P2 & _).
  destruct Hsame3 as (C3 & Q3 & L3 & M3 & P3 & _).
  subst a1. simpl in C2, Q2, L2, M2, P2.
  split; [congruence|]. split; [congruence|].
  rewrite Hempty in Hch3. simpl in Hch3. split.
  - unfold displayed, shown. rewrite L3, M3, P3, L2, M2, P2, Hch3. simpl.
    rewrite <- (map_map snd cells), map_snd_combine by apply length_seq.
    reflexivity.
  - unfold get_children. rewrite Hch3, map_fst_combine by apply length_seq.
    apply seq_NoDup.
Qed.

(** Lines 124-149: the loop shows every queued snapshot in turn and ends on
    the last one, the queue empty. *)
Lemma drain_spec (older : list snapshot) (latest : snapshot) (a : app) :
  NoDup (get_children (tree a)) ->
  Forall (fun s => Forall renders (snapshot_processes s)) (older ++ [latest]) ->
  exists a',
    drain (older ++ [latest]) a = (Ok tt, a') /\
    num_cores a' = num_cores a /\ update_queue a' = [] /\
    displayed a' = shown (num_cores a) latest.
Proof.
  revert a. induction older as [|s older IH]; intros a Hnd Hr.
  - inversion Hr as [|s l Hs _]; subst.
    cbn [List.app drain]. unfold mbind at 1, set_queue.
    set (a0 := App _ _ _ _ _ _ _).
    destruct (show_snapshot_spec latest a0 Hnd Hs) as (a1 & Hrun & Hc & Hq & Hd & _).
    unfold mbind. rewrite Hrun. exists a1. repeat split; assumption.
  - inversion Hr as [|s' l Hs Hr']; subst.
    cbn [List.app drain]. unfold mbind at 1, set_queue.
    set (a0 := App _ _ _ _ _ _ _).
    destruct (show_snapshot_spec s a0 Hnd Hs) as (a1 & Hrun & Hc & _ & _ & Hnd1).
    unfold mbind at 1. rewrite Hrun.
    destruct (IH a1 Hnd1 Hr') as (a' & Hrun' & Hc' & Hq' & Hd').
    exists a'. split; [exact Hrun'|].
    split; [rewrite Hc', Hc; reflexivity|]. split; [exact Hq'|].
    rewrite Hd', Hc. reflexivity.
Qed.

Lemma check_updates_spec (older : list snapshot) (latest : snapshot) (a : app) :
  NoDup (get_children (tree a)) ->
  update_queue a = older ++ [latest] ->
  Forall (fun s => Forall renders (snapshot_processes s)) (older ++ [latest]) ->
  exists a',
    check_updates a = (Ok tt, a') /\ update_queue a' = [] /\
    displayed a' = shown (num_cores a) latest.
Proof.
  intros Hnd Hq Hr.
  destruct (drain_spec older latest a Hnd Hr) as (a1 & Hrun & Hc & Hq1 & Hd).
  unfold check_updates, mbind, mtry_Exception, mbind, get. rewrite Hq, Hrun.
  unfold emit. eexists. split; [reflexivity|]. split; [exact Hq1|exact Hd].
Qed.

End DrainFacts.

(** C2. One drain of a queue that holds snapshots, the latest last (S1 then
    S2, say), returns with the queue empty and the labels and rows of the
    latest one on display, exactly as if the latest had been alone in the
    queue. The table's prior items are distinct and every resident size fits a
    float once in MB. *)
Theorem C2_drain_shows_latest (older : list snapshot) (latest : snapshot)
    (a : app) :
  NoDup (get_children (tree a)) ->
  update_queue a = older ++ [latest] ->
  Forall (fun s => Forall renders (snapshot_processes s)) (older ++ [latest]) ->
  exists a',
    check_updates a = (Ok tt, a') /\ update_queue a' = [] /\
    displayed a' = shown (num_cores a) latest /\
    forall alone,
      NoDup (get_children (tree alone)) -> num_cores alone = num_cores a ->
      update_queue alone = [latest] ->
      displayed (snd (check_updates alone)) = displayed a'.
Proof.
  intros Hnd Hq Hr.
  destruct (check_updates_spec older latest a Hnd Hq Hr) as (a' & Hrun & Hq' & Hd).
  exists a'. split; [exact Hrun|]. split; [exact Hq'|]. split; [exact Hd|].
  intros alone Hnd0 Hc0 Hq0.
  destruct (check_updates_spec [] latest alone Hnd0 Hq0) as (b & Hrunb & _ & Hdb).
  { apply Forall_app in Hr. destruct Hr as [_ Hl]. exact Hl. }
  rewrite Hrunb. simpl. rewrite Hdb, Hd, Hc0. reflexivity.
Qed.

Lemma C2_drain_shows_latest_witness :
  exists a',
    check_updates Examples.app_two_queued = (Ok tt, a') /\ update_queue a' = [] /\
    displayed a' =
      ("CPU: 25.0% (Cores: 4)"%string,
       "Memory: 50.0% (7629 MB / 15258 MB)"%string,
       "Processes: 2"%string,
       [["11"; "beta"; "100.0"; "2.0"; "sleeping"]%string;
        ["10"; "alpha"; "10.0"; "1.0"; "running"]%string]).
Proof.
  destruct (C2_drain_shows_latest [Examples.snapshot_old] Examples.snapshot4
              Examples.app_two_queued) as (a' & H1 & H2 & H3 & _).
  - constructor.
  - reflexivity.
  - repeat constructor; simpl; eexists; vm_compute; reflexivity.
  - exists a'. split; [exact H1|]. split; [exact H2|]. rewrite H3.
    vm_compute. reflexivity.
Defined.

(** A record without [memory_info] makes no row: the interface prints one
    line for it, touches no widget and goes on with the next record, so the
    rows shown are those of the records that have one. *)
Theorem render_skips_record_without_memory (p : pinfo) (ps : list pinfo) (a : app) :
  memory_info p = None -> Forall renders ps ->
  (exists a', insert_process p a = (Ok tt, a') /\ same_widgets a a' /\
     trace a' = trace a ++
       [Printed "Error processing process data: 'NoneType' object has no attribute 'rss'"]) /\
  row_of p = [] /\
  exists a', mfor (p :: ps) insert_process a = (Ok tt, a') /\
    map snd (children (tree a')) =
      map snd (children (tree a)) ++ flat_map row_of ps.
Proof.
  intros Hm Hr. destruct (insert_process_skip p a Hm) as [Hrow Hrun].
  split; [|split; [exact Hrow|]].
  - rewrite Hrun. eexists. split; [reflexivity|]. split; [repeat split|reflexivity].
  - destruct (insert_loop (p :: ps) a) as (a' & Hloop & _ & _ & Hch).
    { constructor; [unfold renders; rewrite Hm; exact I|exact Hr]. }
    exists a'. split; [exact Hloop|]. rewrite Hch. cbn [flat_map].
    rewrite Hrow. cbn [List.app]. rewrite map_app.
    rewrite map_snd_combine by apply length_seq. reflexivity.
Qed.

Lemma render_skips_record_without_memory_witness :
  map (fun it => cells (snd it))
    (children (tree (snd (mfor
       [Pinfo 7 "ghost" 1.5%float None "zombie";
        Pinfo 1234 "worker" 12.34%float (Some (Pmem 52428800)) "running"]
       insert_process (init 4))))) =
  [["1234"; "worker"; "12.3"; "50.0"; "running"]%string].
Proof.
  destruct (render_skips_record_without_memory
              (Pinfo 7 "ghost" 1.5%float None "zombie")
              [Pinfo 1234 "worker" 12.34%float (Some (Pmem 52428800)) "running"]
              (init 4)) as (_ & _ & a' & Hrun & Hrows).
  - reflexivity.
  - repeat constructor. eexists. vm_compute. reflexivity.
  - rewrite Hrun. cbn [snd]. rewrite <- (map_map snd cells), Hrows.
    vm_compute. reflexivity.
Defined.

(** ** Sorting the table: claim C3 *)

Section MoveFacts.

Lemma find_NoDup (l : list (nat * values)) (k : nat) (v : values) :
  NoDup (map fst l) -> In (k, v) l ->
  find (fun it => Nat.eqb (fst it) k) l = Some (k, v).
Proof.
  induction l as [|[k' v'] l IH]; simpl; intros Hnd Hin; [destruct Hin|].
  inversion Hnd as [|? ? Hk' Hnd']; subst.
  destruct Hin as [[= -> ->]|Hin].
  - rewrite Nat.eqb_refl. reflexivity.
  - destruct (Nat.eqb_spec k' k) as [->|Hne].
    + exfalso. apply Hk'. apply (in_map fst) in Hin. exact Hin.
    + apply IH; assumption.
Qed.

Lemma filter_other_ids (k : nat) (l : list (nat * values)) :
  ~ In k (map fst l) -> filter (fun it => negb (Nat.eqb (fst it) k)) l = l.
Proof.
  induction l as [|it l IH]; intros H; [reflexivity|]. cbn [filter].
  destruct (Nat.eqb_spec (fst it) k) as [E|E].
  - exfalso. apply H. left. exact E.
  - cbn [negb]. f_equal. apply IH. intros Hin. apply H. right. exact Hin.
Qed.

Lemma filter_no_ids (l : list (nat * values)) :
  filter (fun it => negb (existsb (Nat.eqb (fst it)) [])) l = l.
Proof. induction l as [|it l IH]; simpl; [reflexivity|f_equal; exact IH]. Qed.

Lemma firstn_exact {X : Type} (xs ys : list X) :
  firstn (List.length xs) (xs ++ ys) = xs.
Proof.
  rewrite firstn_app, firstn_all, Nat.sub_diag, firstn_O. apply app_nil_r.
Qed.

Lemma skipn_exact {X : Type} (xs ys : list X) :
  skipn (List.length xs) (xs ++ ys) = ys.
Proof. induction xs as [|x xs IH]; [reflexivity|exact IH]. Qed.

(** One [move] to the end of the part already in order. *)
Lemma move_at (t : treeview) (prefix rest : list (nat * values)) (k : nat)
    (v : values) :
  children t = prefix ++ rest -> NoDup (map fst (prefix ++ rest)) ->
  In (k, v) rest ->
  move t k (List.length prefix) =
    Ok (Treeview
          (prefix ++ (k, v) :: filter (fun it => negb (Nat.eqb (fst it) k)) rest)
          (serial t)
          (flagged (selected t)
             (prefix ++ (k, v) :: filter (fun it => negb (Nat.eqb (fst it) k)) rest))
          (heading_command t)).
Proof.
  intros Hc Hnd Hin. unfold move, find_item. rewrite Hc.
  rewrite (find_NoDup (prefix ++ rest) k v Hnd)
    by (apply in_or_app; right; exact Hin).
  cbn [option_map snd]. cbv zeta. rewrite filter_app.
  rewrite (filter_other_ids k prefix).
  - rewrite !firstn_exact, !skipn_exact. reflexivity.
  - intros Hp. rewrite map_app in Hnd.
    apply (in_map fst) in Hin. cbn [fst] in Hin.
    revert Hnd Hp Hin. generalize (map fst rest), (map fst prefix).
    intros rs ps Hnd Hp Hr. induction ps as [|p ps IH]; [destruct Hp|].
    cbn [List.app] in Hnd. inversion Hnd as [|? ? Hnp Hnd']; subst.
    destruct Hp as [->|Hp].
    + apply Hnp. apply in_or_app. right. exact Hr.
    + apply IH; assumption.
Qed.

End MoveFacts.

Section SortColumnFacts.

Lemma split_row (l : list (nat * values)) (k : nat) (v : values) :
  NoDup (map fst l) -> In (k, v) l ->
  Permutation l ((k, v) :: filter (fun it => negb (Nat.eqb (fst it) k)) l).
Proof.
  induction l as [|[k' v'] l IH]; intros Hnd Hin; [destruct Hin|].
  cbn [map fst] in Hnd. inversion Hnd as [|? ? Hk' Hnd']; subst.
  cbn [filter fst]. destruct Hin as [[= -> ->]|Hin].
  - rewrite Nat.eqb_refl. cbn [negb].
    rewrite filter_other_ids by exact Hk'. apply Permutation_refl.
  - destruct (Nat.eqb_spec k' k) as [->|Hne].
    + exfalso. apply Hk'. apply (in_map fst) in Hin. exact Hin.
    + cbn [negb]. rewrite perm_swap. apply perm_skip. apply IH; assumption.
Qed.

(** Lines 165-166: moving the items one after the other to the positions
    0, 1, 2, ... puts the rows in the order of the items. *)
Lemma move_loop (lookup : nat -> values) (todo : list (string * iid)) :
  forall (prefix rest : list (nat * values)) (a : app),
    children (tree a) = prefix ++ rest ->
    NoDup (map fst (prefix ++ rest)) ->
    (forall it, In it rest -> lookup (fst it) = snd it) ->
    NoDup (map snd todo) -> incl (map snd todo) (map fst rest) ->
    exists a',
      mfor (enumerate_from (List.length prefix) todo) move_item a = (Ok tt, a') /\
      same_but_rows a a' /\ trace a' = trace a /\
      serial (tree a') = serial (tree a) /\
      incl (selected (tree a')) (selected (tree a)) /\
      children (tree a') =
        prefix ++ map (fun x => (snd x, lookup (snd x))) todo ++
        filter (fun it => negb (existsb (Nat.eqb (fst it)) (map snd todo))) rest.
Proof.
  induction todo as [|[val k] todo IH]; intros prefix rest a Hc Hnd Hl Htodo Hincl.
  - exists a. split; [reflexivity|]. split; [apply same_but_rows_refl|].
    split; [reflexivity|]. split; [reflexivity|]. split; [apply incl_refl|].
    cbn [map List.app]. rewrite filter_no_ids. exact Hc.
  - cbn [map snd] in Htodo, Hincl. inversion Htodo as [|? ? Hk Htodo']; subst.
    assert (Hin : In (k, lookup k) rest).
    { assert (Hk' : In k (map fst rest)) by (apply Hincl; left; reflexivity).
      apply in_map_iff in Hk'. destruct Hk' as ([k0 v0] & E & Hi).
      cbn [fst] in E. subst k0. pose proof (Hl _ Hi) as E.
      cbn [fst snd] in E. rewrite E. exact Hi. }
    cbn [enumerate_from mfor]. unfold mbind at 1, move_item, on_tree, mbind, get, lift.
    rewrite (move_at (tree a) prefix rest k (lookup k) Hc Hnd Hin).
    unfold set_tree. set (a1 := App _ _ _ _ _ _ _).
    set (rest' := filter (fun it => negb (Nat.eqb (fst it) k)) rest).
    destruct (IH (prefix ++ [(k, lookup k)]) rest' a1)
      as (a' & Hrun & Hsame & Htrace & Hserial & Hsel & Hch).
    + unfold a1; simpl. rewrite <- app_assoc. reflexivity.
    + rewrite <- app_assoc. cbn [List.app].
      eapply Permutation_NoDup; [|exact Hnd]. apply Permutation_map.
      apply Permutation_app_head. apply split_row; [|exact Hin].
      rewrite map_app in Hnd. apply NoDup_app_remove_l in Hnd. exact Hnd.
    + intros it Hit. apply filter_In in Hit. apply Hl, Hit.
    + exact Htodo'.
    + intros k' Hk'. assert (Hr : In k' (map fst rest)) by (apply Hincl; right; exact Hk').
      apply in_map_iff in Hr. destruct Hr as (it & <- & Hi).
      apply in_map. apply filter_In. split; [exact Hi|].
      apply negb_true_iff, Nat.eqb_neq. intros E. apply Hk. rewrite <- E. exact Hk'.
    + rewrite length_app, Nat.add_comm in Hrun. cbn [List.length Nat.add] in Hrun.
      exists a'. split; [exact Hrun|]. split.
      { eapply same_but_rows_trans; [|exact Hsame]. repeat split. }
      split; [rewrite Htrace; reflexivity|].
      split; [rewrite Hserial; reflexivity|].
      split.
      { intros x Hx. apply Hsel in Hx. unfold a1 in Hx.
        cbn [tree selected] in Hx. apply filter_In in Hx. destruct Hx as [_ Hx].
        apply existsb_exists in Hx. destruct Hx as (y & Hy & E).
        apply Nat.eqb_eq in E. subst y. exact Hy. }
      rewrite Hch. unfold rest'. rewrite <- app_assoc. cbn [map List.app snd].
      rewrite filter_ids_cons. reflexivity.
Qed.

(** Line 158 on a table whose items are distinct. *)
Lemma read_cells (col : column) (a : app) :
  NoDup (get_children (tree a)) ->
  mmap (read_cell col) (get_children (tree a)) a =
    (Ok (map (fun it => (cell (snd it) col, fst it)) (children (tree a))), a).
Proof.
  intros Hnd.
  assert (H : forall l, incl l (children (tree a)) ->
            mmap (read_cell col) (map fst l) a =
              (Ok (map (fun it => (cell (snd it) col, fst it)) l), a)).
  { induction l as [|[k v] l IH]; intros Hl; [reflexivity|].
    assert (Hk : read_cell col k a = (Ok (cell v col, k), a)).
    { unfold read_cell, mbind, get, lift, set, find_item.
      rewrite (find_NoDup (children (tree a)) k v Hnd)
        by (apply Hl; left; reflexivity).
      reflexivity. }
    cbn [map mmap fst snd]. unfold mbind. rewrite Hk.
    rewrite IH by (intros it Hit; apply Hl; right; exact Hit). reflexivity. }
  apply H. intros it Hit. exact Hit.
Qed.

Lemma pair_lt_asym (x y : string * string) :
  pair_lt x y = true -> pair_lt y x = false.
Proof.
  unfold pair_lt, String.ltb. rewrite (String.compare_antisym (fst y) (fst x)).
  destruct (String.compare (fst x) (fst y)); cbn [CompOpp]; try discriminate;
    try reflexivity.
  rewrite (String.compare_antisym (snd y) (snd x)).
  destruct (String.compare (snd x) (snd y)); cbn [CompOpp]; try discriminate;
    reflexivity.
Qed.

Lemma pair_not_lt_leb (x y : string * string) :
  pair_lt y x = false -> String.leb (fst x) (fst y) = true.
Proof.
  unfold pair_lt, String.leb. rewrite (String.compare_antisym (fst y) (fst x)).
  destruct (String.compare (fst x) (fst y)); cbn [CompOpp]; try discriminate;
    reflexivity.
Qed.

(** The key of line 161 is the number the cell stands for. *)
Lemma numeric_key_number (c : string) (k : iid) (f : float) :
  float_of_str c = Ok f -> numeric_key (c, k) = Ok f.
Proof.
  intros H. unfold numeric_key. cbn [fst].
  destruct (String.eqb_spec c "") as [->|_]; [|exact H].
  vm_compute in H. discriminate.
Qed.

(** The columns line 160 sorts by number are the numeric columns. *)
Lemma numeric_cells_elim (col : column) (l : list (iid * values)) :
  numeric_cells col l -> numeric_column col = true ->
  Forall (fun it => exists f, cell_number col it = Ok f /\ is_nan f = false) l.
Proof. destruct col; cbn; intros H E; try discriminate; exact H. Qed.

Lemma numeric_cells_perm (col : column) (l l' : list (iid * values)) :
  Permutation l' l -> numeric_cells col l -> numeric_cells col l'.
Proof.
  intros Hp. destruct col; cbn; try (intros; exact I);
    apply Permutation_Forall; symmetry; exact Hp.
Qed.

Lemma sorted_by_intro (col : column) (reverse : bool) (rows : list (iid * values)) :
  (numeric_column col = true ->
   adjacent (fun x y => exists fx fy,
               cell_number col x = Ok fx /\ cell_number col y = Ok fy /\
               (if reverse then fy <=? fx else fx <=? fy)%float = true) rows) ->
  (numeric_column col = false ->
   adjacent (fun x y =>
               (if reverse
                then String.leb (cell (snd y) col) (cell (snd x) col)
                else String.leb (cell (snd x) col) (cell (snd y) col)) = true)
     rows) ->
  sorted_by col reverse rows.
Proof. destruct col; cbn; intros Hn Ht; auto. Qed.

(** Lines 160-163 return when the numeric cells read as numbers, and leave
    the items in the order of their keys. *)
Lemma sort_items (col : column) (reverse : bool) (l : list (iid * values)) :
  numeric_cells col l ->
  exists items,
    (if numeric_column col
     then sort PrimFloat.ltb numeric_key reverse
            (map (fun it => (cell (snd it) col, fst it)) l)
     else sort pair_lt text_key reverse
            (map (fun it => (cell (snd it) col, fst it)) l)) = Ok items /\
    Permutation items (map (fun it => (cell (snd it) col, fst it)) l) /\
    if numeric_column col then
      adjacent (fun x y => exists fx fy,
                  numeric_key x = Ok fx /\ numeric_key y = Ok fy /\
                  (if reverse then fx <? fy else fy <? fx)%float = false) items
    else
      adjacent (fun x y =>
                  (if reverse then String.leb (fst y) (fst x)
                   else String.leb (fst x) (fst y)) = true) items.
Proof.
  intros Hnum. set (items0 := map _ l).
  destruct (numeric_column col) eqn:Ecol.
  - destruct (decorate_total numeric_key items0) as [d Hd].
    { unfold items0. apply Forall_map.
      eapply Forall_impl; [|exact (numeric_cells_elim _ _ Hnum Ecol)].
      intros it (f & Hf & _). exists f. apply numeric_key_number. exact Hf. }
    destruct (sort PrimFloat.ltb numeric_key reverse items0) as [items|e] eqn:Es.
    + exists items. split; [reflexivity|].
      apply (sort_inv PrimFloat.ltb ltb_asym) in Es. exact Es.
    + unfold sort in Es. rewrite Hd in Es. discriminate.
  - destruct (decorate_total text_key items0) as [d Hd].
    { apply Forall_forall. intros x _. eexists. reflexivity. }
    destruct (sort pair_lt text_key reverse items0) as [items|e] eqn:Es.
    + exists items. split; [reflexivity|].
      apply (sort_inv pair_lt pair_lt_asym) in Es. destruct Es as [Hp Ha].
      split; [exact Hp|]. intros i x y Hx Hy.
      destruct (Ha i x y Hx Hy) as (kx & ky & [= <-] & [= <-] & H).
      destruct reverse.
      * apply (pair_not_lt_leb (fst y, iid_str (snd y)) (fst x, iid_str (snd x)) H).
      * apply (pair_not_lt_leb (fst x, iid_str (snd x)) (fst y, iid_str (snd y)) H).
    + unfold sort in Es. rewrite Hd in Es. discriminate.
Qed.

(** Lines 156-169 on a table whose items are distinct and whose numeric
    cells read as numbers. *)
Lemma sort_column_spec (col : column) (reverse : bool) (a : app) :
  NoDup (get_children (tree a)) -> numeric_cells col (children (tree a)) ->
  exists a',
    sort_column col reverse a = (Ok tt, a') /\
    same_labels a a' /\ trace a' = trace a /\
    incl (selected (tree a')) (selected (tree a)) /\
    Permutation (children (tree a')) (children (tree a)) /\
    sorted_by col reverse (children (tree a')) /\
    forall c, heading_command (tree a') c =
                if column_eqb c col then Some (col, negb reverse)
                else heading_command (tree a) c.
Proof.
  intros Hnd Hnum.
  set (l := children (tree a)).
  set (items0 := map (fun it : iid * values => (cell (snd it) col, fst it)) l).
  set (lookup := fun k => match find_item (tree a) k with
                          | Some v => v
                          | None => Values 0 "" "" "" ""
                          end).
  set (g := fun x : string * iid => (snd x, lookup (snd x))).
  assert (Hl : forall it, In it l -> lookup (fst it) = snd it).
  { intros [k v] Hit. cbn [fst snd]. unfold lookup, find_item.
    rewrite (find_NoDup (children (tree a)) k v Hnd Hit). reflexivity. }
  assert (Hg : forall it, In it l -> g (cell (snd it) col, fst it) = it).
  { intros [k v] Hit. unfold g. cbn [snd fst]. pose proof (Hl _ Hit) as E.
    cbn [fst snd] in E. rewrite E. reflexivity. }
  destruct (sort_items col reverse l Hnum) as (items & Hsort & Hperm & Hadj).
  fold items0 in Hsort, Hperm.
  assert (Hids : Permutation (map snd items) (map fst l)).
  { rewrite (Permutation_map snd Hperm). unfold items0. rewrite map_map.
    apply Permutation_refl. }
  destruct (move_loop lookup items [] l a eq_refl Hnd Hl) as
    (a1 & Hrun & Hsame & Htrace & _ & Hsel & Hch).
  { eapply Permutation_NoDup; [symmetry; exact Hids|exact Hnd]. }
  { intros k Hk. eapply Permutation_in; [exact Hids|exact Hk]. }
  cbn [List.app List.length] in Hrun, Hch.
  rewrite filter_own_ids in Hch
    by (intros k Hk; eapply Permutation_in; [symmetry; exact Hids|exact Hk]).
  rewrite app_nil_r in Hch.
  unfold sort_column, mbind, get. fold l. unfold l at 1.
  rewrite (read_cells col a Hnd). fold l. fold items0. unfold lift.
  rewrite Hsort. unfold enumerate. rewrite Hrun.
  unfold on_tree, mbind, get, lift, set_tree.
  eexists. split; [reflexivity|].
  destruct Hsame as (C1 & Q1 & L1 & M1 & P1 & H1).
  split; [repeat split; assumption|]. split; [exact Htrace|].
  cbn [tree heading selected children heading_command].
  split; [exact Hsel|]. rewrite Hch.
  assert (Hitems : Forall (fun x => exists it, In it l /\
                             x = (cell (snd it) col, fst it)) items).
  { apply Forall_forall. intros x Hx.
    apply (Permutation_in _ Hperm) in Hx. unfold items0 in Hx.
    apply in_map_iff in Hx. destruct Hx as (it & <- & Hit). eauto. }
  split; [|split].
  - change (Permutation (map g items) l).
    rewrite (Permutation_map g Hperm). unfold items0. rewrite map_map.
    rewrite (map_ext_in _ (fun it => it)) by exact Hg.
    rewrite map_id. apply Permutation_refl.
  - change (sorted_by col reverse (map g items)).
    apply sorted_by_intro; intros Ecol; rewrite Ecol in Hadj.
    + apply adjacent_map.
      eapply adjacent_impl with (P := fun x => exists it, In it l /\
                                         x = (cell (snd it) col, fst it));
        [|exact Hitems|exact Hadj].
      intros x y (itx & Hx & ->) (ity & Hy & ->) (fx & fy & Hfx & Hfy & Hlt).
      rewrite (Hg _ Hx), (Hg _ Hy).
      pose proof (numeric_cells_elim _ _ Hnum Ecol) as Hn.
      rewrite Forall_forall in Hn.
      destruct (Hn _ Hx) as (fx' & Ex & Nx). destruct (Hn _ Hy) as (fy' & Ey & Ny).
      exists fx', fy'. split; [exact Ex|]. split; [exact Ey|].
      unfold cell_number in Ex, Ey.
      rewrite (numeric_key_number _ (fst itx) _ Ex) in Hfx.
      rewrite (numeric_key_number _ (fst ity) _ Ey) in Hfy.
      injection Hfx as <-. injection Hfy as <-.
      destruct reverse; apply not_ltb_leb; assumption.
    + apply adjacent_map.
      eapply adjacent_impl with (P := fun x => exists it, In it l /\
                                         x = (cell (snd it) col, fst it));
        [|exact Hitems|exact Hadj].
      intros x y (itx & Hx & ->) (ity & Hy & ->) H.
      rewrite (Hg _ Hx), (Hg _ Hy). exact H.
  - intros c. rewrite H1. reflexivity.
Qed.

End SortColumnFacts.

Lemma column_eqb_refl (c : column) : column_eqb c c = true.
Proof. destruct c; reflexivity. Qed.

(** C3. On a table whose items are distinct and whose numeric cells read as
    numbers, the sort command on any column returns with the same rows in a new
    order (a permutation), in the order of that column (as numbers for CPU% and
    Memory, as strings for the other columns), in the direction asked, and
    binds the heading to the opposite direction; the next click on that
    heading sorts the same rows the other way round and binds the first
    direction again. The labels are not touched. *)
Theorem C3_sort_command (col : column) (reverse : bool) (a : app) :
  NoDup (get_children (tree a)) -> numeric_cells col (children (tree a)) ->
  exists a1 a2,
    sort_column col reverse a = (Ok tt, a1) /\
    (heading_command (tree a) col = Some (col, reverse) ->
     click_heading col a = (Ok tt, a1)) /\
    Permutation (children (tree a1)) (children (tree a)) /\
    sorted_by col reverse (children (tree a1)) /\
    heading_command (tree a1) col = Some (col, negb reverse) /\
    click_heading col a1 = (Ok tt, a2) /\
    Permutation (children (tree a2)) (children (tree a)) /\
    sorted_by col (negb reverse) (children (tree a2)) /\
    heading_command (tree a2) col = Some (col, reverse) /\
    same_labels a a1 /\ same_labels a1 a2.
Proof.
  intros Hnd Hnum.
  destruct (sort_column_spec col reverse a Hnd Hnum)
    as (a1 & Hrun1 & Hl1 & _ & _ & Hp1 & Hs1 & Hh1).
  assert (Hnd1 : NoDup (get_children (tree a1))).
  { unfold get_children. eapply Permutation_NoDup; [|exact Hnd].
    apply Permutation_map. symmetry. exact Hp1. }
  assert (Hnum1 : numeric_cells col (children (tree a1)))
    by exact (numeric_cells_perm col _ _ Hp1 Hnum).
  destruct (sort_column_spec col (negb reverse) a1 Hnd1 Hnum1)
    as (a2 & Hrun2 & Hl2 & _ & _ & Hp2 & Hs2 & Hh2).
  assert (Hc1 : heading_command (tree a1) col = Some (col, negb reverse))
    by (rewrite Hh1, column_eqb_refl; reflexivity).
  exists a1, a2. split; [exact Hrun1|]. split.
  { intros Hh. unfold click_heading, mbind, get. rewrite Hh. exact Hrun1. }
  split; [exact Hp1|]. split; [exact Hs1|]. split; [exact Hc1|]. split.
  { unfold click_heading, mbind, get. rewrite Hc1. exact Hrun2. }
  split; [rewrite Hp2; exact Hp1|]. split; [exact Hs2|]. split.
  { rewrite Hh2, column_eqb_refl, negb_involutive. reflexivity. }
  split; assumption.
Qed.

Lemma C3_sort_command_witness :
  exists a1 a2,
    click_heading CPU Examples.app_nine_ten = (Ok tt, a1) /\
    click_heading CPU a1 = (Ok tt, a2) /\
    map (fun it => cells (snd it)) (children (tree a1)) =
      [["10"; "alpha"; "10.0"; "1.0"; "running"]%string;
       ["11"; "beta"; "9.0"; "2.0"; "sleeping"]%string] /\
    map (fun it => cells (snd it)) (children (tree a2)) =
      [["11"; "beta"; "9.0"; "2.0"; "sleeping"]%string;
       ["10"; "alpha"; "10.0"; "1.0"; "running"]%string] /\
    String.leb "10.0" "9.0" = true.
Proof.
  destruct (C3_sort_command CPU true Examples.app_nine_ten)
    as (a1 & a2 & H1 & H2 & _ & _ & _ & H3 & _).
  - repeat constructor; simpl; intuition discriminate.
  - repeat constructor; eexists; split; vm_compute; reflexivity.
  - exists a1, a2. split; [exact (H2 eq_refl)|]. split; [exact H3|].
    vm_compute in H1. injection H1 as <-.
    vm_compute in H3. injection H3 as <-.
    split; [vm_compute; reflexivity|]. split; vm_compute; reflexivity.
Defined.

(* ================================================================== *)
(** * Further properties of the code *)
(* ================================================================== *)

Import Session.

(** ** The order of floats, continued *)

Section FloatRank.

Lemma SFcompare_rank (x y : spec_float) :
  SFcompare x y =
    match rank x, rank y with
    | Some r, Some r' => Some (rank_compare r r')
    | _, _ => None
    end.
Proof.
  destruct x as [sx|sx| |sx mx ex], y as [sy|sy| |sy my ey];
    try (destruct sx); try (destruct sy); try reflexivity.
  cbn [SFcompare rank rank_compare]. rewrite Z.compare_refl.
  change PosDef.Pos.compare_cont with Pos.compare_cont.
  rewrite Z.compare_opp. rewrite (Z.compare_antisym ex ey).
  destruct (ex ?= ey)%Z; reflexivity.
Qed.

Lemma rank_compare_le_trans (r1 r2 r3 : Z * Z * Z) :
  rank_compare r1 r2 <> Gt -> rank_compare r2 r3 <> Gt ->
  rank_compare r1 r3 <> Gt.
Proof.
  destruct r1 as [[a1 b1] c1], r2 as [[a2 b2] c2], r3 as [[a3 b3] c3].
  unfold rank_compare.
  destruct (Z.compare_spec a1 a2), (Z.compare_spec a2 a3),
    (Z.compare_spec a1 a3); try lia; try congruence;
  destruct (Z.compare_spec b1 b2), (Z.compare_spec b2 b3),
    (Z.compare_spec b1 b3); try lia; try congruence;
  destruct (Z.compare_spec c1 c2), (Z.compare_spec c2 c3),
    (Z.compare_spec c1 c3); try lia; congruence.
Qed.

Lemma rank_compare_eq (r1 r2 : Z * Z * Z) :
  rank_compare r1 r2 = Eq -> r1 = r2.
Proof.
  destruct r1 as [[a1 b1] c1], r2 as [[a2 b2] c2]. unfold rank_compare.
  destruct (Z.compare_spec a1 a2); try discriminate.
  destruct (Z.compare_spec b1 b2); try discriminate.
  destruct (Z.compare_spec c1 c2); try discriminate.
  intros _. congruence.
Qed.

Lemma rank_compare_refl (r : Z * Z * Z) : rank_compare r r = Eq.
Proof.
  destruct r as [[a b] c]. unfold rank_compare. rewrite !Z.compare_refl.
  reflexivity.
Qed.

(** [<=] on floats is transitive. *)
Lemma leb_trans (x y z : float) :
  (x <=? y)%float = true -> (y <=? z)%float = true -> (x <=? z)%float = true.
Proof.
  rewrite !leb_spec. unfold SFleb. rewrite !SFcompare_rank.
  destruct (rank (Prim2SF x)) as [rx|]; [|discriminate].
  destruct (rank (Prim2SF y)) as [ry|]; [|discriminate].
  destruct (rank (Prim2SF z)) as [rz|]; [|discriminate].
  intros H1 H2.
  assert (G1 : rank_compare rx ry <> Gt)
    by (destruct (rank_compare rx ry); congruence).
  assert (G2 : rank_compare ry rz <> Gt)
    by (destruct (rank_compare ry rz); congruence).
  pose proof (rank_compare_le_trans rx ry rz G1 G2) as G.
  destruct (rank_compare rx rz); congruence.
Qed.

(** Two floats equal to a third are not ordered by [<]. *)
Lemma eqb_not_ltb (x y k : float) :
  (x =? k)%float = true -> (y =? k)%float = true -> (x <? y)%float = false.
Proof.
  rewrite !eqb_spec, ltb_spec. unfold SFeqb, SFltb. rewrite !SFcompare_rank.
  destruct (rank (Prim2SF x)) as [rx|]; [|discriminate].
  destruct (rank (Prim2SF k)) as [rk|]; [|discriminate].
  destruct (rank (Prim2SF y)) as [ry|]; [|discriminate].
  destruct (rank_compare rx rk) eqn:E1; try discriminate.
  destruct (rank_compare ry rk) eqn:E2; try discriminate.
  apply rank_compare_eq in E1, E2. subst. rewrite rank_compare_refl.
  reflexivity.
Qed.

End FloatRank.

(** ** list.sort, continued: all pairs, and ties *)

Section OrderFacts.
Context {X : Type}.
Variable R : X -> X -> Prop.

Lemma adjacent_Sorted (l : list X) : adjacent R l -> Sorted R l.
Proof.
  induction l as [|a l IH]; intros H; constructor.
  - apply IH. intros i x y Hx Hy. exact (H (S i) x y Hx Hy).
  - destruct l as [|b l]; constructor. exact (H 0%nat a b eq_refl eq_refl).
Qed.

Hypothesis R_trans : forall x y z, R x y -> R y z -> R x z.

(** In a list whose neighbours are in order, every element of a front part
    is in order with every element of the rest. *)
Lemma adjacent_all_pairs (l1 l2 : list X) :
  adjacent R (l1 ++ l2) -> forall x y, In x l1 -> In y l2 -> R x y.
Proof.
  intros H. apply adjacent_Sorted in H.
  apply Sorted_StronglySorted in H; [|exact R_trans].
  induction l1 as [|a l1 IH]; intros x y Hx Hy; [destruct Hx|].
  simpl in H. apply StronglySorted_inv in H. destruct H as [Hs Hf].
  destruct Hx as [<-|Hx].
  - rewrite Forall_forall in Hf. apply Hf. apply in_or_app. right; exact Hy.
  - apply IH; assumption.
Qed.

End OrderFacts.

Section SortTies.
Context {A K : Type}.
Variable lt : K -> K -> bool.
Variable tie : K -> bool.
Hypothesis tie_not_lt : forall a b, tie a = true -> tie b = true -> lt a b = false.

Lemma insert_sorted_ties (x : K * A) (l : list (K * A)) :
  filter (fun kx => tie (fst kx)) (insert_sorted lt x l) =
  filter (fun kx => tie (fst kx)) (x :: l).
Proof.
  induction l as [|y l IH]; [reflexivity|].
  cbn [insert_sorted]. destruct (lt (fst y) (fst x)) eqn:E; [|reflexivity].
  cbn [filter]. rewrite IH. cbn [filter].
  destruct (tie (fst y)) eqn:Ey, (tie (fst x)) eqn:Ex; try reflexivity.
  rewrite (tie_not_lt _ _ Ey Ex) in E. discriminate.
Qed.

Lemma sort_keyed_ties (l : list (K * A)) :
  filter (fun kx => tie (fst kx)) (sort_keyed lt l) =
  filter (fun kx => tie (fst kx)) l.
Proof.
  induction l as [|x l IH]; [reflexivity|].
  unfold sort_keyed in *. cbn [fold_right]. rewrite insert_sorted_ties.
  cbn [filter]. rewrite IH. reflexivity.
Qed.

Lemma sort_decorated_ties (reverse : bool) (l : list (K * A)) :
  filter (fun kx => tie (fst kx)) (sort_decorated lt reverse l) =
  filter (fun kx => tie (fst kx)) l.
Proof.
  destruct reverse; cbn [sort_decorated].
  - rewrite filter_rev, sort_keyed_ties, filter_rev, rev_involutive. reflexivity.
  - apply sort_keyed_ties.
Qed.

Variable f : A -> K.

Lemma decorate_ok (l : list A) :
  decorate (fun x => Ok (f x)) l = Ok (map (fun x => (f x, x)) l).
Proof.
  induction l as [|x l IH]; [reflexivity|].
  cbn [decorate bind map]. rewrite IH. reflexivity.
Qed.

Lemma sort_decorated_keys (reverse : bool) (d : list (K * A)) :
  Forall (fun kx => fst kx = f (snd kx)) d ->
  Forall (fun kx => fst kx = f (snd kx)) (sort_decorated lt reverse d).
Proof.
  assert (Hi : forall x l, Forall (fun kx => fst kx = f (snd kx)) (x :: l) ->
            Forall (fun kx : K * A => fst kx = f (snd kx)) (insert_sorted lt x l)).
  { intros x l. induction l as [|y l IH]; intros H; [exact H|].
    cbn [insert_sorted]. destruct (lt (fst y) (fst x)); [|exact H].
    inversion H as [|? ? Hx Hl]; subst. inversion Hl as [|? ? Hy Hl']; subst.
    constructor; [exact Hy|]. apply IH. constructor; assumption. }
  assert (Hk : forall l, Forall (fun kx => fst kx = f (snd kx)) l ->
            Forall (fun kx : K * A => fst kx = f (snd kx)) (sort_keyed lt l)).
  { intros l H. induction H as [|x l Hx Hl IH]; [constructor|].
    unfold sort_keyed in *. cbn [fold_right]. apply Hi. constructor; assumption. }
  intros H. destruct reverse; cbn [sort_decorated].
  - apply Forall_rev, Hk, Forall_rev, H.
  - apply Hk, H.
Qed.

(** A sort on a key that cannot raise keeps, among the elements whose keys
    tie, the order they had. *)
Lemma sort_ties (reverse : bool) (l sorted : list A) :
  sort lt (fun x => Ok (f x)) reverse l = Ok sorted ->
  filter (fun x => tie (f x)) sorted = filter (fun x => tie (f x)) l.
Proof.
  unfold sort. rewrite decorate_ok. cbn [bind]. intros [= <-].
  rewrite filter_map_swap.
  rewrite (filter_ext_in (fun kx => tie (f (snd kx))) (fun kx => tie (fst kx))).
  - rewrite sort_decorated_ties, filter_map_swap, map_map. cbn [snd fst].
    apply map_id.
  - intros kx Hin.
    assert (H : Forall (fun kx : K * A => fst kx = f (snd kx))
                  (sort_decorated lt reverse (map (fun x => (f x, x)) l))).
    { apply sort_decorated_keys. apply Forall_forall. intros ky Hy.
      apply in_map_iff in Hy. destruct Hy as (x & <- & _). reflexivity. }
    rewrite Forall_forall in H. rewrite (H kx Hin). reflexivity.
Qed.

End SortTies.

(** ** The snapshot, continued *)

Lemma collected_not_nan (n : Z) (procs : list (result pinfo))
    (collected : list pinfo) :
  (forall r, In (Ok r) procs -> is_nan (cpu_percent r) = false) ->
  collect_processes n procs = Ok collected ->
  Forall (fun p => is_nan (cpu_percent p) = false) collected.
Proof.
  intros Hnan Hc. destruct (collect_inv n procs [] collected Hc) as (l & Hl & Hall).
  simpl in Hl. subst l. eapply Forall_impl; [|exact Hall].
  intros p (r & Hr & _ & Hdiv & _).
  eapply float_div_int_not_nan; [exact (Hnan r Hr)|exact Hdiv].
Qed.

(** The cut of line 111 drops the lightest records: the records collected in
    a cycle are those of the snapshot together with the dropped ones, which
    are all but 50 of them, and no dropped record has a larger [cpu_percent]
    than a record of the snapshot.  The raw readings are numbers (no NaN). *)
Theorem snapshot_keeps_heaviest (n : Z) (b : reading) (s : snapshot) :
  (forall procs r, r_process_iter b = Ok procs -> In (Ok r) procs ->
                   is_nan (cpu_percent r) = false) ->
  take_snapshot n b = Ok s ->
  exists procs collected dropped,
    r_process_iter b = Ok procs /\
    collect_processes n procs = Ok collected /\
    Permutation (snapshot_processes s ++ dropped) collected /\
    List.length dropped = (List.length collected - 50)%nat /\
    forall p q, In p (snapshot_processes s) -> In q dropped ->
      (cpu_percent q <=? cpu_percent p)%float = true.
Proof.
  intros Hnan Hs.
  destruct (take_snapshot_inv n b s Hs)
    as (cpu & memory & procs & collected & sorted & _ & _ & Hp & Hc & Hperm & Ha & ->).
  assert (Hnn : Forall (fun p => is_nan (cpu_percent p) = false) sorted).
  { eapply Permutation_Forall; [symmetry; exact Hperm|].
    apply (collected_not_nan n procs); [|exact Hc].
    intros r Hr. exact (Hnan procs r Hp Hr). }
  assert (Hd : descending_cpu sorted) by (apply descending_of_not_lt; assumption).
  exists procs, collected, (skipn top_limit sorted).
  unfold snapshot_processes; cbn [snd].
  split; [exact Hp|]. split; [exact Hc|]. split; [|split].
  - rewrite firstn_skipn. exact Hperm.
  - rewrite length_skipn, (Permutation_length Hperm). reflexivity.
  - intros p q Hin Hq. unfold descending_cpu in Hd.
    rewrite <- (firstn_skipn top_limit sorted) in Hd.
    refine (adjacent_all_pairs _ _ _ _ Hd p q Hin Hq).
    intros x y z Hxy Hyz. exact (leb_trans _ _ _ Hyz Hxy).
Qed.

Lemma snapshot_keeps_heaviest_witness :
  exists s dropped,
    take_snapshot 4 Examples.backend52 = Ok s /\
    List.length dropped = 1%nat /\
    forall p q, In p (snapshot_processes s) -> In q dropped ->
      (cpu_percent q <=? cpu_percent p)%float = true.
Proof.
  destruct (take_snapshot 4 Examples.backend52) as [s|e] eqn:E;
    [|vm_compute in E; discriminate].
  destruct (snapshot_keeps_heaviest 4 Examples.backend52 s)
    as (procs & collected & dropped & Hp & Hc & _ & Hl & H).
  - intros procs r [= <-] Hin. destruct Hin as [Hin|Hin]; [discriminate|].
    apply in_map_iff in Hin. destruct Hin as (i & [= <-] & _). reflexivity.
  - exact E.
  - exists s, dropped. split; [reflexivity|]. split; [|exact H].
    injection Hp as <-. vm_compute in Hc. injection Hc as <-. exact Hl.
Defined.

(** Records with the same [cpu_percent] stay in enumeration order: the list
    collected in a cycle holds the stored reads in the order [process_iter]
    gave them, and for every value the records of the sorted list that have
    it are those of the collected list, in the same order.  The raw readings
    are numbers (no NaN), on which a stable sort has one result. *)
Theorem snapshot_ties_keep_enumeration_order (n : Z) (b : reading) (s : snapshot) :
  (forall procs r, r_process_iter b = Ok procs -> In (Ok r) procs ->
                   is_nan (cpu_percent r) = false) ->
  take_snapshot n b = Ok s ->
  exists procs collected sorted,
    r_process_iter b = Ok procs /\
    collect_processes n procs = Ok collected /\
    Forall2 (normalized n) (stored_reads procs) collected /\
    snapshot_processes s = firstn 50 sorted /\
    forall k, filter (fun p => (cpu_percent p =? k)%float) sorted =
              filter (fun p => (cpu_percent p =? k)%float) collected.
Proof.
  intros _. unfold take_snapshot.
  destruct (r_cpu_percent b) as [cpu|e]; simpl; [|discriminate].
  destruct (r_virtual_memory b) as [memory|e]; simpl; [|discriminate].
  destruct (r_process_iter b) as [procs|e]; simpl; [|discriminate].
  destruct (collect_processes n procs) as [collected|e] eqn:Ec; simpl;
    [|discriminate].
  unfold sort_and_limit.
  destruct (sort PrimFloat.ltb (fun x => Ok (cpu_percent x)) true collected)
    as [sorted|e] eqn:Es; simpl; [|discriminate].
  intros [= <-]. exists procs, collected, sorted.
  split; [reflexivity|]. split; [exact Ec|]. split; [|split].
  - destruct (collect_order n procs [] collected Ec) as (l & -> & Hl). exact Hl.
  - reflexivity.
  - intros k.
    apply (sort_ties PrimFloat.ltb (fun x => (x =? k)%float)) with (reverse := true);
      [|exact Es].
    intros x y Hx Hy. exact (eqb_not_ltb x y k Hx Hy).
Qed.

Lemma snapshot_ties_keep_enumeration_order_witness :
  exists s sorted,
    take_snapshot 4 Examples.backend52 = Ok s /\
    snapshot_processes s = firstn 50 sorted /\
    map pid (filter (fun p => (cpu_percent p =? 0)%float) sorted) =
      map Z.of_nat (seq 1 51).
Proof.
  destruct (take_snapshot 4 Examples.backend52) as [s|e] eqn:E;
    [|vm_compute in E; discriminate].
  destruct (snapshot_ties_keep_enumeration_order 4 Examples.backend52 s)
    as (procs & collected & sorted & Hp & Hc & _ & Hs & H).
  - intros procs r [= <-] Hin. destruct Hin as [Hin|Hin]; [discriminate|].
    apply in_map_iff in Hin. destruct Hin as (i & [= <-] & _). reflexivity.
  - exact E.
  - exists s, sorted. split; [reflexivity|]. split; [exact Hs|].
    rewrite H. injection Hp as <-. vm_compute in Hc. injection Hc as <-.
    vm_compute. reflexivity.
Defined.

(** ** The loop of the sampler, continued *)

Lemma sleep_accepts (d : float) (ev : sampler_event) :
  sleep d = Ok ev -> is_nan d = false /\ (d <? 0)%float = false.
Proof.
  unfold sleep. destruct (is_nan d); [discriminate|].
  destruct (_ || _); [discriminate|].
  destruct (d <? 0)%float; [discriminate|]. auto.
Qed.

Lemma sleep_rejects (d : float) :
  is_nan d = true \/ (d <? 0)%float = true ->
  exists e, sleep d = Raise e /\
    (exn_cls e = ValueError \/ exn_cls e = OverflowError).
Proof.
  intros H. unfold sleep. destruct (is_nan d) eqn:En.
  - eexists; split; [reflexivity|left; reflexivity].
  - destruct H as [H|H]; [discriminate|].
    destruct (_ || _).
    + eexists; split; [reflexivity|right; reflexivity].
    + rewrite H. eexists; split; [reflexivity|left; reflexivity].
Qed.

(** The three ways an iteration can go. *)
Lemma iteration_cases (n : Z) (c : cycle) :
  (exists s d, take_snapshot n (c_backend c) = Ok s /\ c_refresh_rate c = Ok d /\
       sleep d = Ok (Sleep d) /\ iteration n c = [Put s; Sleep d]) \/
  (exists s e, take_snapshot n (c_backend c) = Ok s /\
       (d <- c_refresh_rate c ;; sleep d) = Raise e /\
       iteration n c = [Put s; Print (error_line e); Sleep 1]) \/
  (exists e, take_snapshot n (c_backend c) = Raise e /\
       iteration n c = [Print (error_line e); Sleep 1]).
Proof.
  unfold iteration, try_body.
  destruct (take_snapshot n (c_backend c)) as [s|e] eqn:Et.
  - destruct (d <- c_refresh_rate c ;; sleep d) as [ev|e] eqn:Es.
    + left. destruct (c_refresh_rate c) as [d|e]; cbn [bind] in Es; [|discriminate].
      pose proof (sleep_ok d ev Es) as ->.
      exists s, d. repeat split; [exact Es].
    + right; left. exists s, e. repeat split.
  - right; right. exists e. repeat split.
Qed.

(** A failure of one process that line 107 does not name costs the whole
    cycle: when reading a process raises anything but NoSuchProcess or
    AccessDenied, or the division of line 105 raises, the cycle publishes no
    snapshot, whatever the other processes are; it prints the error and waits
    one second. *)
Theorem unexpected_failure_loses_the_cycle (n : Z) (c : cycle) (cpu : float)
    (memory : svmem) (before after : list (result pinfo)) (proc : result pinfo)
    (acc : list pinfo) (e : exn) :
  r_cpu_percent (c_backend c) = Ok cpu ->
  r_virtual_memory (c_backend c) = Ok memory ->
  r_process_iter (c_backend c) = Ok (before ++ proc :: after) ->
  collect_processes n before = Ok acc ->
  (proc = Raise e /\ exn_cls e <> NoSuchProcess /\ exn_cls e <> AccessDenied) \/
  (exists r, proc = Ok r /\ is_idle r = false /\
             float_div_int (cpu_percent r) n = Raise e) ->
  take_snapshot n (c_backend c) = Raise e /\
  iteration n c = [Print (error_line e); Sleep 1].
Proof.
  intros Hcpu Hmem Hiter Hbefore Hproc.
  assert (Hread : read_process n acc proc = Raise e).
  { destruct Hproc as [(-> & H1 & H2)|(r & -> & Hi & Hd)].
    - unfold read_process, try_except, bind, catches. cbn [existsb].
      destruct (exn_cls e); try reflexivity; congruence.
    - rewrite read_process_ok, Hi, Hd. reflexivity. }
  assert (Ht : take_snapshot n (c_backend c) = Raise e).
  { unfold take_snapshot. rewrite Hcpu, Hmem, Hiter. cbn [bind].
    unfold collect_processes in *. rewrite for_each_app, Hbefore. cbn [bind for_each].
    rewrite Hread. reflexivity. }
  split; [exact Ht|]. unfold iteration, try_body. rewrite Ht. reflexivity.
Qed.

Lemma unexpected_failure_loses_the_cycle_witness :
  iteration 4 Examples.cycle_io_error =
  [Print "Error in update thread: [Errno 5] Input/output error"; Sleep 1].
Proof.
  refine (proj2 (unexpected_failure_loses_the_cycle 4 Examples.cycle_io_error
                   25%float Examples.memory4 _ _ _
                   [Pinfo 10 "alpha" 10%float (Some (Pmem 1048576)) "running"]
                   (Exn OtherException "[Errno 5] Input/output error")
                   eq_refl eq_refl eq_refl _ _)).
  - vm_compute. reflexivity.
  - left. split; [reflexivity|]. split; discriminate.
Defined.

(** An interval the sampler cannot use does not cost the snapshot: when
    [refresh_rate.get()] raises, or returns a value [time.sleep] rejects (NaN
    or a negative number), the snapshot of the cycle is on the queue already;
    the error is printed and the cycle waits one second instead. *)
Theorem rejected_interval_still_publishes (n : Z) (c : cycle) (s : snapshot) :
  take_snapshot n (c_backend c) = Ok s ->
  (forall e, c_refresh_rate c = Raise e ->
     iteration n c = [Put s; Print (error_line e); Sleep 1]) /\
  (forall d, c_refresh_rate c = Ok d ->
     is_nan d = true \/ (d <? 0)%float = true ->
     exists e, sleep d = Raise e /\
       (exn_cls e = ValueError \/ exn_cls e = OverflowError) /\
       iteration n c = [Put s; Print (error_line e); Sleep 1]).
Proof.
  intros Ht. unfold iteration, try_body. rewrite Ht. split.
  - intros e ->. reflexivity.
  - intros d -> Hd. destruct (sleep_rejects d Hd) as (e & Hs & He).
    exists e. cbn [bind]. rewrite Hs. repeat split; assumption.
Qed.

Lemma rejected_interval_still_publishes_witness :
  iteration 4 Examples.cycle_negative =
  [Put Examples.snapshot4;
   Print "Error in update thread: sleep length must be non-negative"; Sleep 1].
Proof.
  destruct (rejected_interval_still_publishes 4 Examples.cycle_negative
              Examples.snapshot4)
    as [_ H].
  - vm_compute. reflexivity.
  - destruct (H (-1)%float eq_refl (or_intror eq_refl)) as (e & Hs & _ & Hi).
    vm_compute in Hs. injection Hs as <-. exact Hi.
Defined.

(** The sampler paces itself: it runs the iterations up to the first one that
    finds the flag lowered and nothing after; each of them sleeps exactly
    once and publishes at most one snapshot, and no sleep is asked for a
    negative time or a NaN. *)
Theorem sampler_paces_itself (n : Z) (cs : list cycle) :
  fst (update_loop n cs) = flat_map (iteration n) (run_prefix cs) /\
  List.length (filter is_sleep (fst (update_loop n cs))) =
    List.length (run_prefix cs) /\
  (List.length (filter is_put (fst (update_loop n cs))) <=
     List.length (run_prefix cs))%nat /\
  forall d, In (Sleep d) (fst (update_loop n cs)) -> (0 <=? d)%float = true.
Proof.
  induction cs as [|c cs (IH1 & IH2 & IH3 & IH4)].
  - cbn. repeat split; [lia|intros d []].
  - cbn [run_prefix]. destruct (c_running c) eqn:Er.
    + rewrite (update_loop_cons n c cs Er). cbn [fst flat_map List.length].
      rewrite !filter_app, !length_app, IH2.
      assert (H : List.length (filter is_sleep (iteration n c)) = 1%nat /\
                  (List.length (filter is_put (iteration n c)) <= 1)%nat /\
                  forall d, In (Sleep d) (iteration n c) -> (0 <=? d)%float = true).
      { destruct (iteration_cases n c)
          as [(s & d & _ & _ & Hs & ->)|[(s & e & _ & _ & ->)|(e & _ & ->)]];
          cbn; (split; [reflexivity|]); (split; [lia|]); intros d' Hin.
        - destruct Hin as [[=]|[[= <-]|[]]].
          destruct (sleep_accepts d _ Hs) as [Hn Hz].
          apply not_ltb_leb; [reflexivity|exact Hn|exact Hz].
        - destruct Hin as [[=]|[[=]|[[= <-]|[]]]]. reflexivity.
        - destruct Hin as [[=]|[[= <-]|[]]]. reflexivity. }
      destruct H as (H1 & H2 & H3). rewrite H1.
      split; [rewrite IH1; reflexivity|]. split; [reflexivity|]. split; [lia|].
      intros d Hin. apply in_app_or in Hin. destruct Hin as [Hin|Hin]; auto.
    + cbn [update_loop]. rewrite Er. cbn. repeat split; [lia|intros d []].
Qed.

(** ** What the methods of the interface preserve *)

Section PreservesFacts.
Variable Q : app -> Prop.

Lemma preserves_ret {A : Type} (x : A) : preserves Q (ret x).
Proof. intros a H. exact H. Qed.

Lemma preserves_lift {A : Type} (r : result A) : preserves Q (lift r).
Proof. intros a H. exact H. Qed.

Lemma preserves_get {A : Type} (f : app -> A) : preserves Q (get f).
Proof. intros a H. exact H. Qed.

Lemma preserves_bind {A B : Type} (m : M A) (k : A -> M B) :
  preserves Q m -> (forall x, preserves Q (k x)) -> preserves Q (mbind m k).
Proof.
  intros Hm Hk a H. unfold mbind. specialize (Hm a H).
  destruct (m a) as [[x|e] a']; cbn [snd] in *.
  - apply Hk, Hm.
  - exact Hm.
Qed.

Lemma preserves_mtry {A : Type} (body : M A) (classes : list exn_class)
    (handler : exn -> M A) :
  preserves Q body -> (forall e, preserves Q (handler e)) ->
  preserves Q (mtry body classes handler).
Proof.
  intros Hb Hh a H. unfold mtry. specialize (Hb a H).
  destruct (body a) as [[x|e] a']; cbn [snd] in *; [exact Hb|].
  destruct (catches classes (exn_cls e)); [apply Hh, Hb|exact Hb].
Qed.

Lemma preserves_mtry_Exception {A : Type} (body : M A) (handler : exn -> M A) :
  preserves Q body -> (forall e, preserves Q (handler e)) ->
  preserves Q (mtry_Exception body handler).
Proof.
  intros Hb Hh a H. unfold mtry_Exception. specialize (Hb a H).
  destruct (body a) as [[x|e] a']; cbn [snd] in *; [exact Hb|apply Hh, Hb].
Qed.

Lemma preserves_mfor {A : Type} (xs : list A) (body : A -> M unit) :
  (forall x, preserves Q (body x)) -> preserves Q (mfor xs body).
Proof.
  intros Hb. induction xs as [|x xs IH]; cbn [mfor].
  - apply preserves_ret.
  - apply preserves_bind; [apply Hb|intros _; exact IH].
Qed.

Lemma preserves_mmap {A B : Type} (f : A -> M B) (xs : list A) :
  (forall x, preserves Q (f x)) -> preserves Q (mmap f xs).
Proof.
  intros Hf. induction xs as [|x xs IH]; cbn [mmap].
  - apply preserves_ret.
  - apply preserves_bind; [apply Hf|intros y].
    apply preserves_bind; [exact IH|intros ys; apply preserves_ret].
Qed.

(** *** The methods, from what the calls on the widgets preserve *)

Hypothesis Q_print : forall line, preserves Q (emit (Printed line)).
Hypothesis Q_cpu_label : forall text, preserves Q (set_cpu_label text).
Hypothesis Q_memory_label : forall text, preserves Q (set_memory_label text).
Hypothesis Q_count_label : forall text, preserves Q (set_process_count_label text).
Hypothesis Q_delete : forall k, preserves Q (on_tree (fun t => delete t k)).
Hypothesis Q_insert : forall v, preserves Q (on_tree (fun t => Ok (insert_end t v))).

Lemma preserves_insert_process (p : pinfo) : preserves Q (insert_process p).
Proof.
  unfold insert_process. apply preserves_mtry.
  - apply preserves_bind; [apply preserves_lift|intros m].
    apply preserves_bind; [apply preserves_lift|intros mb]. apply Q_insert.
  - intros e. apply Q_print.
Qed.

Lemma preserves_show_snapshot (s : snapshot) : preserves Q (show_snapshot s).
Proof.
  destruct s as [[cpu memory] processes]. unfold show_snapshot.
  apply preserves_bind; [apply preserves_get|intros cores].
  apply preserves_bind; [apply Q_cpu_label|intros _].
  apply preserves_bind; [apply Q_memory_label|intros _].
  apply preserves_bind; [apply Q_count_label|intros _].
  apply preserves_bind; [apply preserves_get|intros items].
  apply preserves_bind; [apply preserves_mfor; intros k; apply Q_delete|intros _].
  apply preserves_mfor. intros p. apply preserves_insert_process.
Qed.

(** The loop of lines 124-149 over the queue [q]: only tails of [q] are
    left in the queue. *)
Lemma preserves_drain (q : list snapshot) :
  (forall done s q', q = done ++ s :: q' -> preserves Q (set_queue q')) ->
  preserves Q (drain q).
Proof.
  induction q as [|s q IH]; intros Hq; cbn [drain].
  - apply preserves_ret.
  - apply preserves_bind; [apply (Hq [] s q eq_refl)|intros _].
    apply preserves_bind; [apply preserves_show_snapshot|intros _].
    apply IH. intros done s' q' ->. apply (Hq (s :: done) s' q'). reflexivity.
Qed.

Lemma preserves_check_updates :
  preserves Q (emit (After 100)) ->
  forall a,
    (forall done s q', update_queue a = done ++ s :: q' ->
                       preserves Q (set_queue q')) ->
    Q a -> Q (snd (check_updates a)).
Proof.
  intros Hafter a Hq H. unfold check_updates, mbind, mtry_Exception, get.
  pose proof (preserves_drain (update_queue a) Hq a H) as Hd.
  destruct (drain (update_queue a) a) as [[x|e] a']; cbn [snd] in Hd.
  - exact (Hafter _ Hd).
  - exact (Hafter _ (Q_print ("Error updating UI: " ++ exn_str e)%string a' Hd)).
Qed.

Hypothesis Q_move : forall k i, preserves Q (on_tree (fun t => move t k i)).

Lemma preserves_sort_column (col : column) (reverse : bool) :
  preserves Q (on_tree (fun t => Ok (heading t col (col, negb reverse)))) ->
  preserves Q (sort_column col reverse).
Proof.
  intros Hh. unfold sort_column.
  apply preserves_bind; [apply preserves_get|intros keys].
  apply preserves_bind.
  { apply preserves_mmap. intros k. unfold read_cell.
    apply preserves_bind; [apply preserves_get|intros t].
    apply preserves_bind; [apply preserves_lift|intros v]. apply preserves_ret. }
  intros items. apply preserves_bind; [apply preserves_lift|intros sorted].
  apply preserves_bind; [|intros _; exact Hh].
  apply preserves_mfor. intros [i [val k]]. apply Q_move.
Qed.

Hypothesis Q_emit : forall e, preserves Q (emit e).

Lemma preserves_terminate_process (w : world) : preserves Q (terminate_process w).
Proof.
  unfold terminate_process.
  apply preserves_bind; [apply preserves_get|intros selection].
  destruct selection as [|first rest]; [apply Q_emit|].
  apply preserves_bind; [apply preserves_get|intros t].
  apply preserves_bind; [apply preserves_lift|intros v].
  apply preserves_bind; [apply Q_emit|intros _].
  destruct (w_confirm w); [|apply preserves_ret].
  apply preserves_mtry_Exception.
  - apply preserves_bind; [apply preserves_lift|intros _].
    apply preserves_bind; [apply Q_emit|intros _].
    apply preserves_bind; [apply preserves_lift|intros _]. apply Q_emit.
  - intros e. destruct (exn_cls e); apply Q_emit.
Qed.

End PreservesFacts.

(** A property of the table alone is preserved by a call on the widget when
    the call, if it returns, returns a table that has it. *)
Lemma preserves_on_tree (P : treeview -> Prop) (f : treeview -> result treeview) :
  (forall t t', P t -> f t = Ok t' -> P t') ->
  preserves (fun a => P (tree a)) (on_tree f).
Proof.
  intros Hf a H. unfold on_tree, mbind, get, lift. cbn [fst snd].
  destruct (f (tree a)) as [t'|e] eqn:E; cbn [snd]; [|exact H].
  exact (Hf _ _ H E).
Qed.

(** ** The table stays well formed *)

Section WellFormed.

Lemma NoDup_fst_filter {V : Type} (f : nat * V -> bool) (l : list (nat * V)) :
  NoDup (map fst l) -> NoDup (map fst (filter f l)).
Proof.
  induction l as [|x l IH]; simpl; intros H; [constructor|].
  inversion H as [|? ? Hx Hl]; subst.
  destruct (f x); simpl; [constructor|]; auto.
  intros Hin. apply Hx. apply in_map_iff in Hin. destruct Hin as (y & Hy & Hin).
  apply filter_In in Hin. apply in_map_iff. exists y. tauto.
Qed.

Lemma find_item_Some (t : treeview) (k : iid) (v : values) :
  find_item t k = Some v -> In (k, v) (children t).
Proof.
  unfold find_item. destruct (find _ _) as [[k' v']|] eqn:E; [|discriminate].
  intros [= <-]. apply find_some in E. destruct E as [Hin Hk].
  apply Nat.eqb_eq in Hk. simpl in Hk. subst. exact Hin.
Qed.

Lemma column_eqb_eq (c col : column) : column_eqb c col = true -> c = col.
Proof. destruct c, col; try discriminate; reflexivity. Qed.

Lemma wf_tree_init : wf_tree (Treeview [] 0 [] initial_heading_command).
Proof.
  unfold wf_tree, get_children. cbn.
  split; [constructor|]. split; [constructor|]. split; [intros k []|].
  split; [reflexivity|]. intros c Hc. destruct c; try (eexists; reflexivity).
  congruence.
Qed.

Lemma wf_tree_delete (t : treeview) (k : iid) (t' : treeview) :
  wf_tree t -> delete t k = Ok t' -> wf_tree t'.
Proof.
  intros (Hnd & Hle & Hsel & Hst & Hh). unfold delete.
  destruct (find_item t k); [|discriminate]. intros [= <-].
  unfold wf_tree, get_children in *. cbn [children serial selected heading_command].
  split; [apply NoDup_fst_filter, Hnd|]. split; [|split; [|split; assumption]].
  - apply Forall_forall. intros x Hx. apply in_map_iff in Hx.
    destruct Hx as (y & <- & Hy). apply filter_In in Hy.
    rewrite Forall_forall in Hle. apply Hle. apply in_map. tauto.
  - intros x Hx. apply filter_In in Hx. destruct Hx as [Hx Hne].
    specialize (Hsel x Hx). apply in_map_iff in Hsel.
    destruct Hsel as (y & <- & Hy). apply in_map_iff. exists y.
    split; [reflexivity|]. apply filter_In. split; [exact Hy|exact Hne].
Qed.

Lemma wf_tree_insert_end (t : treeview) (v : values) :
  wf_tree t -> wf_tree (insert_end t v).
Proof.
  intros (Hnd & Hle & Hsel & Hst & Hh).
  unfold wf_tree, get_children, insert_end in *.
  cbn [children serial selected heading_command]. rewrite map_app. cbn [map fst].
  split; [|split; [|split; [|split; assumption]]].
  - apply (Permutation_NoDup (l := S (serial t) :: map fst (children t))).
    { apply Permutation_cons_append. }
    constructor; [|exact Hnd]. intros Hin. rewrite Forall_forall in Hle.
    specialize (Hle _ Hin). lia.
  - apply Forall_app. split.
    + eapply Forall_impl; [|exact Hle]. intros x Hx. cbn beta in *. lia.
    + constructor; [lia|constructor].
  - intros x Hx. apply in_or_app. left. exact (Hsel x Hx).
Qed.

Lemma wf_tree_move (t : treeview) (k : iid) (i : nat) (t' : treeview) :
  wf_tree t -> move t k i = Ok t' -> wf_tree t'.
Proof.
  intros (Hnd & Hle & Hsel & Hst & Hh). unfold move.
  destruct (find_item t k) as [v|] eqn:Ef; [|discriminate]. intros [= <-].
  apply find_item_Some in Ef.
  unfold wf_tree, get_children in *. cbn [children serial selected heading_command].
  set (others := filter (fun it => negb (Nat.eqb (fst it) k)) (children t)).
  assert (Hperm : Permutation (k :: map fst others)
                    (map fst (firstn i others ++ (k, v) :: skipn i others))).
  { change (k :: map fst others) with (map fst ((k, v) :: others)).
    apply Permutation_map.
    eapply Permutation_trans; [|apply Permutation_middle].
    rewrite firstn_skipn. reflexivity. }
  assert (Hin_others : forall x, In x (map fst others) ->
            In x (map fst (children t)) /\ x <> k).
  { intros x Hx. apply in_map_iff in Hx. destruct Hx as (y & <- & Hy).
    apply filter_In in Hy. destruct Hy as [Hy Hne]. split; [apply in_map, Hy|].
    apply negb_true_iff, Nat.eqb_neq in Hne. exact Hne. }
  split; [|split; [|split; [|split; assumption]]].
  - apply (Permutation_NoDup Hperm). constructor.
    + intros Hin. apply Hin_others in Hin. tauto.
    + apply NoDup_fst_filter, Hnd.
  - apply (Permutation_Forall Hperm). rewrite Forall_forall in Hle. constructor.
    + apply Hle. change k with (fst (k, v)). apply in_map, Ef.
    + apply Forall_forall. intros x Hx. apply Hle, Hin_others, Hx.
  - intros x Hx. unfold flagged in Hx. apply filter_In in Hx. exact (proj1 Hx).
Qed.

Lemma wf_tree_heading (t : treeview) (col : column) (r : bool) :
  col <> Status -> wf_tree t -> wf_tree (heading t col (col, r)).
Proof.
  intros Hcol (Hnd & Hle & Hsel & Hst & Hh).
  unfold wf_tree, get_children, heading in *.
  cbn [children serial selected heading_command].
  split; [exact Hnd|]. split; [exact Hle|]. split; [exact Hsel|]. split.
  - destruct col; cbn [column_eqb]; congruence.
  - intros c Hc. destruct (column_eqb c col) eqn:E.
    + apply column_eqb_eq in E. subst. eexists; reflexivity.
    + apply Hh, Hc.
Qed.

Lemma wf_tree_select (ks : list iid) :
  preserves (fun a => wf_tree (tree a)) (select_rows ks).
Proof.
  intros a (Hnd & Hle & Hsel & Hst & Hh). unfold select_rows, wf_tree, get_children in *.
  cbn [snd tree children serial selected heading_command].
  split; [exact Hnd|]. split; [exact Hle|]. split; [|split; assumption].
  intros x Hx. unfold flagged in Hx. apply filter_In in Hx. exact (proj1 Hx).
Qed.

Lemma wf_tree_check_updates : preserves (fun a => wf_tree (tree a)) check_updates.
Proof.
  intros a H. apply preserves_check_updates; try (intros; intros a' H'; exact H').
  - intros k. apply preserves_on_tree. intros t t'. apply wf_tree_delete.
  - intros v. apply preserves_on_tree. intros t t' Ht [= <-].
    apply wf_tree_insert_end, Ht.
  - exact H.
Qed.

Lemma wf_tree_sort_column (col : column) (reverse : bool) :
  col <> Status ->
  preserves (fun a => wf_tree (tree a)) (sort_column col reverse).
Proof.
  intros Hcol. apply preserves_sort_column.
  - intros k i. apply preserves_on_tree. intros t t'. apply wf_tree_move.
  - apply preserves_on_tree. intros t t' Ht [= <-]. apply wf_tree_heading; assumption.
Qed.

Lemma wf_tree_click_heading (col : column) :
  preserves (fun a => wf_tree (tree a)) (click_heading col).
Proof.
  intros a H. unfold click_heading, mbind, get. cbn [fst snd].
  destruct (heading_command (tree a) col) as [[c r]|] eqn:E; [|exact H].
  assert (Hc : c = col /\ col <> Status).
  { destruct H as (_ & _ & _ & Hst & Hh).
    assert (Hcol : col <> Status) by (intros ->; congruence).
    destruct (Hh col Hcol) as [r' Hr]. split; [congruence|exact Hcol]. }
  destruct Hc as [-> Hcol]. apply wf_tree_sort_column; assumption.
Qed.

Lemma wf_tree_terminate_process (w : world) :
  preserves (fun a => wf_tree (tree a)) (terminate_process w).
Proof. apply preserves_terminate_process. intros e a H. exact H. Qed.

Lemma wf_tree_step (a : app) (act : action) :
  wf_tree (tree a) -> wf_tree (tree (step a act)).
Proof.
  intros H. destruct act as [s| |col|ks|w]; cbn [step].
  - exact H.
  - apply wf_tree_check_updates, H.
  - apply wf_tree_click_heading, H.
  - apply wf_tree_select, H.
  - apply wf_tree_terminate_process, H.
Qed.

Lemma wf_tree_run (acts : list action) (a : app) :
  wf_tree (tree a) -> wf_tree (tree (run acts a)).
Proof.
  revert a. induction acts as [|act acts IH]; intros a H; [exact H|].
  cbn [run fold_left]. apply (IH (step a act)). apply wf_tree_step, H.
Qed.

End WellFormed.

(** Whatever the sampler and the operator do, in whatever order, the table
    stays well formed: snapshots arrive, the timer fires, headings are
    clicked, rows are selected, the terminate button is pressed; after any
    such history, from the interface as [__init__] builds it, the items are
    distinct and none is newer than the widget's serial number, the selection
    is made of rows of the table, and every heading but Status sorts its own
    column while Status has no command. *)
Theorem reachable_tables_are_well_formed (cores : Z) (acts : list action) :
  wf_tree (tree (run acts (init cores))).
Proof. apply wf_tree_run. apply wf_tree_init. Qed.

(** ** The terminate button, continued *)

Lemma terminate_returns (w : world) (a : app) :
  incl (selected (tree a)) (get_children (tree a)) ->
  fst (terminate_process w a) = Ok tt.
Proof.
  intros Hsel. unfold terminate_process, mbind, get. cbn [fst snd].
  destruct (selected (tree a)) as [|k rest] eqn:Es; [reflexivity|].
  destruct (find_item_In (tree a) k (Hsel k (or_introl eq_refl))) as [v Hv].
  unfold lift, item_values. rewrite Hv. cbn [fst snd emit].
  destruct (w_confirm w); [|reflexivity].
  unfold mtry_Exception, mbind, lift, emit. cbn [fst snd tree num_cores].
  destruct (w_process w (v_pid v)) as [[]|e]; cbn [fst snd].
  - destruct (w_terminate w (v_pid v)) as [[]|e]; cbn [fst snd];
      [reflexivity|destruct (exn_cls e); reflexivity].
  - destruct (exn_cls e); reflexivity.
Qed.

(** The terminate button never raises: after any history of the interface,
    [terminate_process] returns, whatever the operator answers and whatever
    the operating system does with the process.  The selected item is always
    a row of the table, so reading its pid at line 178 cannot fail, and every
    failure of lines 181-182 ends in a dialog. *)
Theorem terminate_button_never_raises (cores : Z) (acts : list action) (w : world) :
  fst (terminate_process w (run acts (init cores))) = Ok tt.
Proof.
  apply terminate_returns.
  destruct (wf_tree_run acts (init cores) wf_tree_init) as (_ & _ & Hsel & _).
  exact Hsel.
Qed.

(** ** The refresh, continued *)

Section RefreshFacts.

(** A property that does not depend on the table is preserved by every call
    on the widget. *)
Lemma preserves_on_tree_any (Q : app -> Prop) (f : treeview -> result treeview) :
  (forall t, preserves Q (set_tree t)) -> preserves Q (on_tree f).
Proof.
  intros Hs a H. unfold on_tree, mbind, get, lift. cbn [fst snd].
  destruct (f (tree a)) as [t'|e]; cbn [snd]; [exact (Hs t' a H)|exact H].
Qed.

Lemma check_updates_returns (a : app) : fst (check_updates a) = Ok tt.
Proof.
  unfold check_updates, mbind, mtry_Exception, get, emit. cbn [fst snd].
  destruct (drain (update_queue a) a) as [[[]|e] a1]; reflexivity.
Qed.

Lemma no_selection_preserved_by_drain (q : list snapshot) :
  preserves (fun a => selected (tree a) = []) (drain q).
Proof.
  apply preserves_drain; try (intros; intros a' H'; exact H').
  intros k. apply (preserves_on_tree (fun t => selected t = [])).
  intros t t' Ht. unfold delete. destruct (find_item t k); [|discriminate].
  intros [= <-]. cbn [selected]. rewrite Ht. reflexivity.
Qed.

Lemma show_snapshot_clears_selection (s : snapshot) (a : app) :
  wf_tree (tree a) -> selected (tree (snd (show_snapshot s a))) = [].
Proof.
  intros Hwf. destruct s as [[cpu memory] processes].
  set (a1 := App (num_cores a) (update_queue a) (cpu_text (num_cores a) cpu)
               (memory_text memory) (process_count_text processes) (tree a)
               (trace a)).
  change (show_snapshot (cpu, memory, processes) a) with
    ((mfor (get_children (tree a1))
        (fun item => on_tree (fun t => delete t item)) ;;;
      mfor processes insert_process) a1).
  assert (Hwf1 : wf_tree (tree a1)) by exact Hwf.
  destruct (delete_loop (get_children (tree a1)) a1) as
    (a2 & Hrun2 & _ & _ & _ & Hch2).
  { destruct Hwf1 as [Hnd _]. exact Hnd. }
  { intros k Hk. exact Hk. }
  assert (Hwf2 : wf_tree (tree a2)).
  { change a2 with (snd (Ok tt, a2)). rewrite <- Hrun2.
    apply (preserves_mfor (fun a => wf_tree (tree a))); [|exact Hwf1].
    intros k. apply preserves_on_tree. intros t t'. apply wf_tree_delete. }
  assert (Hsel2 : selected (tree a2) = []).
  { destruct Hwf2 as (_ & _ & Hsel & _). unfold get_children in Hsel.
    rewrite Hch2, filter_own_ids in Hsel by (intros k Hk; exact Hk).
    apply incl_l_nil. exact Hsel. }
  unfold mbind. rewrite Hrun2.
  apply (preserves_mfor (fun a => selected (tree a) = [])); [|exact Hsel2].
  intros p. apply preserves_insert_process.
  - intros line a' H'. exact H'.
  - intros v. apply (preserves_on_tree (fun t => selected t = [])).
    intros t t' Ht [= <-]. exact Ht.
Qed.

Lemma check_updates_clears_selection (a : app) :
  wf_tree (tree a) -> update_queue a <> [] ->
  selected (tree (snd (check_updates a))) = [].
Proof.
  intros Hwf Hq. unfold check_updates, mbind, mtry_Exception, get. cbn [fst snd].
  destruct (update_queue a) as [|s q]; [contradiction|].
  assert (H : selected (tree (snd (drain (s :: q) a))) = []).
  { cbn [drain]. unfold mbind at 1, set_queue.
    set (a0 := App _ _ _ _ _ _ _). unfold mbind at 1.
    pose proof (show_snapshot_clears_selection s a0 Hwf) as H1.
    destruct (show_snapshot s a0) as [[[]|e] a1]; cbn [snd] in H1 |- *.
    - apply no_selection_preserved_by_drain, H1.
    - exact H1. }
  destruct (drain (s :: q) a) as [[[]|e] a1]; cbn [snd] in H |- *; exact H.
Qed.

End RefreshFacts.

(** A refresh drops the selection: when the timer finds a snapshot in the
    queue, the rows are deleted and made anew (lines 133-146), and no row is
    selected afterwards, whichever rows were before; a press on the terminate
    button right after the refresh only gets the warning of line 175. *)
Theorem refresh_clears_selection (a : app) (w : world) :
  wf_tree (tree a) -> update_queue a <> [] ->
  selected (tree (snd (check_updates a))) = [] /\
  exists a',
    terminate_process w (snd (check_updates a)) = (Ok tt, a') /\
    same_widgets (snd (check_updates a)) a' /\
    trace a' = trace (snd (check_updates a)) ++
      [ShowWarning "No Selection" "Please select a process to terminate."].
Proof.
  intros Hwf Hq.
  pose proof (check_updates_clears_selection a Hwf Hq) as Hsel.
  split; [exact Hsel|].
  rewrite (terminate_no_selection w _ Hsel). unfold emit.
  eexists. split; [reflexivity|]. split; [repeat split|reflexivity].
Qed.

Lemma refresh_clears_selection_witness :
  selected (tree Examples.app_two_rows) = [1%nat] /\
  selected (tree (snd (check_updates
                         (snd (put Examples.snapshot4 Examples.app_two_rows))))) = [].
Proof.
  split; [reflexivity|].
  refine (proj1 (refresh_clears_selection
                   (snd (put Examples.snapshot4 Examples.app_two_rows))
                   Examples.world_gone _ _)).
  - unfold wf_tree, get_children. cbn.
    split; [repeat constructor; cbn; intuition lia|].
    split; [repeat constructor|].
    split; [intros k [<-|[]]; left; reflexivity|].
    split; [reflexivity|]. intros c Hc. destruct c; try (eexists; reflexivity).
    congruence.
  - discriminate.
Defined.

(** The timer callback cannot break the polling: from every state
    [check_updates] returns, having scheduled itself again in 100 ms as the
    last thing it did; before that it only printed lines, it took snapshots
    from the front of the queue, and when the queue was empty it changed no
    widget at all. *)
Theorem check_updates_always_rearms (a : app) :
  exists a' printed,
    check_updates a = (Ok tt, a') /\
    trace a' = trace a ++ printed ++ [After 100] /\ only_prints printed /\
    num_cores a' = num_cores a /\
    (exists taken, update_queue a = taken ++ update_queue a') /\
    (update_queue a = [] -> printed = [] /\ same_widgets a a').
Proof.
  destruct (update_queue a) as [|s q] eqn:Eq.
  - unfold check_updates, mbind, mtry_Exception, get. rewrite Eq.
    cbn [drain ret fst snd emit].
    eexists. exists []. split; [reflexivity|]. cbn [trace num_cores update_queue].
    split; [reflexivity|]. split; [constructor|]. split; [reflexivity|].
    split; [exists []; symmetry; exact Eq|]. intros _. split; [reflexivity|].
    repeat split.
  - set (Q := fun x : app =>
                (exists printed, trace x = trace a ++ printed /\ only_prints printed) /\
                num_cores x = num_cores a /\
                exists taken, s :: q = taken ++ update_queue x).
    assert (Hd : Q (snd (drain (s :: q) a))).
    { refine (preserves_drain Q _ _ _ _ _ _ (s :: q) _ a _).
      - intros line x ((pr & Ht & Hp) & Hn & Hq). split; [|split; assumption].
        exists (pr ++ [Printed line]). cbn [snd emit trace].
        rewrite Ht, app_assoc. split; [reflexivity|].
        apply Forall_app. split; [exact Hp|].
        constructor; [eexists; reflexivity|constructor].
      - intros text x H. exact H.
      - intros text x H. exact H.
      - intros text x H. exact H.
      - intros k. apply preserves_on_tree_any. intros t x H. exact H.
      - intros v. apply preserves_on_tree_any. intros t x H. exact H.
      - intros done s' q' Heq x (Ht & Hn & _). split; [exact Ht|].
        split; [exact Hn|]. exists (done ++ [s']). cbn [snd set_queue update_queue].
        rewrite <- app_assoc. exact Heq.
      - split; [exists []; rewrite app_nil_r; split; [reflexivity|constructor]|].
        split; [reflexivity|]. exists []. symmetry. exact Eq. }
    unfold check_updates, mbind, mtry_Exception, get. rewrite Eq. cbn [fst snd].
    destruct (drain (s :: q) a) as [[[]|e] a1]; cbn [snd] in Hd;
      destruct Hd as ((pr & Ht & Hp) & Hn & taken & Hq).
    + eexists. exists pr. split; [reflexivity|]. cbn [emit snd trace num_cores update_queue].
      split; [rewrite Ht, app_assoc; reflexivity|]. split; [exact Hp|].
      split; [exact Hn|]. split; [exists taken; exact Hq|]. discriminate.
    + eexists. exists (pr ++ [Printed ("Error updating UI: " ++ exn_str e)%string]).
      split; [reflexivity|]. cbn [emit snd trace num_cores update_queue].
      split; [rewrite Ht, <- !app_assoc; reflexivity|]. split.
      { apply Forall_app. split; [exact Hp|].
        constructor; [eexists; reflexivity|constructor]. }
      split; [exact Hn|]. split; [exists taken; exact Hq|]. discriminate.
Qed.

(** ** A whole session *)

Section SessionFacts.

Lemma run_app (acts more : list action) (a : app) :
  run (acts ++ more) a = run more (run acts a).
Proof. unfold run. apply fold_left_app. Qed.

Lemma preserves_click_heading (Q : app -> Prop) (col : column) :
  (forall k i, preserves Q (on_tree (fun t => move t k i))) ->
  (forall c r, preserves Q (on_tree (fun t => Ok (heading t c (c, r))))) ->
  preserves Q (click_heading col).
Proof.
  intros Hm Hh. unfold click_heading.
  apply preserves_bind; [apply preserves_get|intros t].
  destruct (heading_command t col) as [[c r]|]; [|apply preserves_ret].
  apply preserves_sort_column; [exact Hm|apply Hh].
Qed.

Variable R : snapshot -> Prop.
Variable cores : Z.

(** The core count never changes, and the queue only ever holds snapshots
    that arrived. *)
Lemma cores_and_queue_step (a : app) (act : action) :
  num_cores a = cores /\ Forall R (update_queue a) ->
  (forall s, act = Arrive s -> R s) ->
  num_cores (step a act) = cores /\ Forall R (update_queue (step a act)).
Proof.
  intros H Hact. destruct act as [s| |col|ks|w]; cbn [step].
  - destruct H as [Hn Hq]. split; [exact Hn|]. cbn [snd put update_queue].
    apply Forall_app. split; [exact Hq|]. constructor; [|constructor].
    apply Hact. reflexivity.
  - apply (preserves_check_updates
             (fun x => num_cores x = cores /\ Forall R (update_queue x)));
      try (intros; intros x Hx; exact Hx); try exact H.
    + intros k. apply preserves_on_tree_any. intros t x Hx. exact Hx.
    + intros done s q' Heq x [Hn _]. split; [exact Hn|].
      cbn [snd set_queue update_queue]. destruct H as [_ Hq].
      rewrite Heq in Hq. apply Forall_app in Hq. destruct Hq as [_ Hq].
      inversion Hq; assumption.
  - apply (preserves_click_heading
             (fun x => num_cores x = cores /\ Forall R (update_queue x)));
      [| |exact H].
    + intros k i. apply preserves_on_tree_any. intros t x Hx. exact Hx.
    + intros c r. apply preserves_on_tree_any. intros t x Hx. exact Hx.
  - exact H.
  - apply (preserves_terminate_process
             (fun x => num_cores x = cores /\ Forall R (update_queue x)));
      [|exact H].
    intros e x Hx. exact Hx.
Qed.

Lemma cores_and_queue_run (acts : list action) (a : app) :
  num_cores a = cores /\ Forall R (update_queue a) ->
  (forall s, In (Arrive s) acts -> R s) ->
  num_cores (run acts a) = cores /\ Forall R (update_queue (run acts a)).
Proof.
  revert a. induction acts as [|act acts IH]; intros a H Hacts; [exact H|].
  cbn [run fold_left]. apply (IH (step a act)).
  - apply cores_and_queue_step; [exact H|]. intros s ->. apply Hacts. left. reflexivity.
  - intros s Hs. apply Hacts. right. exact Hs.
Qed.

End SessionFacts.

Lemma headings_preserved_by_check_updates (h : column -> option (column * bool)) :
  preserves (fun a => heading_command (tree a) = h) check_updates.
Proof.
  intros a H.
  apply (preserves_check_updates (fun a => heading_command (tree a) = h));
    try (intros; intros x Hx; exact Hx); try exact H.
  intros k. apply (preserves_on_tree (fun t => heading_command t = h)).
  intros t t' Ht. unfold delete. destruct (find_item t k); [|discriminate].
  intros [= <-]. exact Ht.
Qed.

(** Whatever came before, the next refresh shows the latest snapshot: after
    any history of the interface, once a snapshot arrives and the timer
    fires, the labels and the rows are exactly those of that snapshot, in the
    order of the snapshot (a sort the operator asked for is gone), the queue
    is empty and no row is selected, while the direction each heading will
    sort in at its next click is kept.  The snapshots that arrived have
    resident sizes a float can hold once in MB. *)
Theorem refresh_shows_latest_after_any_session (cores : Z) (acts : list action)
    (s : snapshot) :
  (forall s', In (Arrive s') acts -> Forall renders (snapshot_processes s')) ->
  Forall renders (snapshot_processes s) ->
  displayed (run (acts ++ [Arrive s; Tick]) (init cores)) = shown cores s /\
  update_queue (run (acts ++ [Arrive s; Tick]) (init cores)) = [] /\
  selected (tree (run (acts ++ [Arrive s; Tick]) (init cores))) = [] /\
  heading_command (tree (run (acts ++ [Arrive s; Tick]) (init cores))) =
    heading_command (tree (run acts (init cores))).
Proof.
  intros Hacts Hs. rewrite run_app.
  pose proof (wf_tree_run acts (init cores) wf_tree_init) as Hwf.
  destruct (cores_and_queue_run
              (fun s' => Forall renders (snapshot_processes s')) cores acts
              (init cores)) as [Hn Hq];
    [split; [reflexivity|constructor]|exact Hacts|].
  set (a0 := run acts (init cores)) in *.
  cbn [run fold_left step].
  set (a1 := snd (put s a0)).
  assert (Hwf1 : wf_tree (tree a1)) by exact Hwf.
  destruct (check_updates_spec (update_queue a0) s a1) as (a' & Hrun & Hq' & Hd).
  { destruct Hwf1 as [Hnd _]. exact Hnd. }
  { reflexivity. }
  { apply Forall_app. split; [exact Hq|]. constructor; [exact Hs|constructor]. }
  split; [|split; [|split]].
  - rewrite Hrun. cbn [snd]. rewrite Hd. unfold a1. cbn [snd put num_cores].
    rewrite Hn. reflexivity.
  - rewrite Hrun. exact Hq'.
  - apply check_updates_clears_selection; [exact Hwf1|].
    unfold a1. cbn [snd put update_queue]. intros H.
    apply app_eq_nil in H. destruct H as [_ H]. discriminate.
  - apply (headings_preserved_by_check_updates (heading_command (tree a0)) a1).
    reflexivity.
Qed.

Lemma refresh_shows_latest_after_any_session_witness :
  displayed (run ([Arrive Examples.snapshot_old; Tick; Click Name; Select [1%nat];
                   Arrive Examples.snapshot_old]
                  ++ [Arrive Examples.snapshot4; Tick]) (init 4)) =
  ("CPU: 25.0% (Cores: 4)"%string,
   "Memory: 50.0% (7629 MB / 15258 MB)"%string,
   "Processes: 2"%string,
   [["11"; "beta"; "100.0"; "2.0"; "sleeping"]%string;
    ["10"; "alpha"; "10.0"; "1.0"; "running"]%string]).
Proof.
  destruct (refresh_shows_latest_after_any_session 4
              [Arrive Examples.snapshot_old; Tick; Click Name; Select [1%nat];
               Arrive Examples.snapshot_old]
              Examples.snapshot4) as [H _].
  - intros s' Hin.
    assert (Hs' : s' = Examples.snapshot_old).
    { cbn [In] in Hin.
      destruct Hin as [[= <-]|[[=]|[[=]|[[=]|[[= <-]|[]]]]]]; reflexivity. }
    subst s'. repeat constructor; eexists; vm_compute; reflexivity.
  - repeat constructor; eexists; vm_compute; reflexivity.
  - rewrite H. vm_compute. reflexivity.
Defined.

(** ** From the sampler to the screen *)

Section ScreenFacts.

Lemma rows_of_renders (ps : list pinfo) :
  Forall renders ps ->
  List.length (flat_map row_of ps) = List.length (filter has_memory ps).
Proof.
  induction 1 as [|p ps Hp _ IH]; [reflexivity|].
  cbn [flat_map filter]. rewrite length_app, IH.
  unfold renders in Hp. unfold row_of, has_memory.
  destruct (memory_info p) as [m|]; [|reflexivity].
  destruct Hp as [mb ->]. reflexivity.
Qed.

Lemma row_of_name (p : pinfo) (v : values) : In v (row_of p) -> v_name v = name p.
Proof.
  unfold row_of. destruct (memory_info p) as [m|]; [|intros []].
  destruct (int_truediv (rss m) (1024 * 1024)); [|intros []].
  intros [<-|[]]. reflexivity.
Qed.

Lemma snapshot_small_and_busy (n : Z) (b : reading) (s : snapshot) :
  take_snapshot n b = Ok s ->
  (List.length (snapshot_processes s) <= 50)%nat /\
  Forall (fun p => is_idle p = false) (snapshot_processes s).
Proof.
  intros Hs.
  destruct (take_snapshot_inv n b s Hs)
    as (cpu & memory & procs & collected & sorted & _ & _ & _ & Hc & Hperm & _ & ->).
  unfold snapshot_processes; cbn [snd]. split; [apply firstn_le_length|].
  apply Forall_take. eapply Permutation_Forall; [symmetry; exact Hperm|].
  destruct (collect_inv n procs [] collected Hc) as (l & Hl & Hall).
  simpl in Hl. subst l. eapply Forall_impl; [|exact Hall].
  intros p (r & _ & Hi & _ & ->). exact Hi.
Qed.

End ScreenFacts.

(** What the sampler publishes is what the screen shows, up to the records
    without a resident size: once a snapshot taken by the sampler is drained,
    the count label announces the number of its records, the table holds one
    row for each record that has a resident size, so at most as many as
    announced and never more than 50, and no row bears the name of an idle
    entry.  The resident sizes are within what a float can hold once in MB. *)
Theorem sampled_snapshot_on_screen (n : Z) (b : reading) (s : snapshot) (a : app) :
  take_snapshot n b = Ok s ->
  Forall renders (snapshot_processes s) ->
  NoDup (get_children (tree a)) -> update_queue a = [] ->
  process_count_label (snd (check_updates (snd (put s a)))) =
    ("Processes: " ++ str_int (Z.of_nat (List.length (snapshot_processes s))))%string /\
  List.length (children (tree (snd (check_updates (snd (put s a)))))) =
    List.length (filter has_memory (snapshot_processes s)) /\
  (List.length (filter has_memory (snapshot_processes s)) <=
     List.length (snapshot_processes s) <= 50)%nat /\
  Forall (fun it => lower (v_name (snd it)) <> "system idle process" /\
                    lower (v_name (snd it)) <> "idle")
    (children (tree (snd (check_updates (snd (put s a)))))).
Proof.
  intros Hs Hr Hnd Hq.
  destruct (snapshot_small_and_busy n b s Hs) as [Hlen Hbusy].
  destruct (check_updates_spec [] s (snd (put s a))) as (a' & Hrun & _ & Hd).
  { exact Hnd. }
  { cbn [snd put update_queue]. rewrite Hq. reflexivity. }
  { constructor; [exact Hr|constructor]. }
  rewrite Hrun. cbn [snd]. unfold displayed, shown in Hd.
  injection Hd as _ _ Hcount Hrows.
  split; [exact Hcount|]. split; [|split; [split; [apply filter_length_le|exact Hlen]|]].
  - rewrite <- rows_of_renders by exact Hr.
    apply (f_equal (@List.length _)) in Hrows. rewrite !length_map in Hrows.
    exact Hrows.
  - apply Forall_forall. intros it Hin.
    assert (Hc : In (cells (snd it)) (map cells (flat_map row_of (snd s)))).
    { rewrite <- Hrows. apply (in_map (fun it => cells (snd it))). exact Hin. }
    apply in_map_iff in Hc. destruct Hc as (v & Hv & Hin').
    apply in_flat_map in Hin'. destruct Hin' as (p & Hp & Hvp).
    assert (Hname : v_name (snd it) = name p).
    { rewrite <- (row_of_name p v Hvp). unfold cells in Hv. cbn [map cell] in Hv.
      injection Hv as _ Hv _. symmetry. exact Hv. }
    rewrite Hname. apply not_idle_names.
    rewrite Forall_forall in Hbusy. apply Hbusy. exact Hp.
Qed.

Lemma sampled_snapshot_on_screen_witness :
  process_count_label
    (snd (check_updates (snd (put Examples.snapshot_ghost (init 4))))) =
    "Processes: 3"%string /\
  List.length
    (children (tree (snd (check_updates
                            (snd (put Examples.snapshot_ghost (init 4))))))) =
    2%nat.
Proof.
  destruct (sampled_snapshot_on_screen 4 Examples.backend_ghost
              Examples.snapshot_ghost (init 4)) as (H1 & H2 & _).
  - vm_compute. reflexivity.
  - repeat constructor; try exact I; eexists; vm_compute; reflexivity.
  - constructor.
  - reflexivity.
  - split; [rewrite H1|rewrite H2]; reflexivity.
Defined.

(** ** Sorting and the selection *)

Section SelectionFacts.

Lemma find_item_perm (t t' : treeview) (k : iid) :
  NoDup (get_children t) -> Permutation (children t') (children t) ->
  find_item t' k = find_item t k.
Proof.
  intros Hnd Hperm. unfold find_item.
  assert (Hnd' : NoDup (map fst (children t'))).
  { apply (Permutation_NoDup (l := map fst (children t))); [|exact Hnd].
    apply Permutation_map. symmetry. exact Hperm. }
  destruct (find (fun it => Nat.eqb (fst it) k) (children t)) as [[k0 v]|] eqn:E.
  - apply find_some in E. destruct E as [Hin Hk]. apply Nat.eqb_eq in Hk.
    simpl in Hk. subst k0.
    rewrite (find_NoDup (children t') k v Hnd');
      [reflexivity|apply (Permutation_in _ (Permutation_sym Hperm)), Hin].
  - destruct (find (fun it => Nat.eqb (fst it) k) (children t')) as [x|] eqn:E';
      [|reflexivity].
    apply find_some in E'. destruct E' as [Hin Hk].
    pose proof (find_none _ _ E x (Permutation_in _ Hperm Hin)) as Hx.
    cbn beta in Hx. congruence.
Qed.

(** What the terminate button does is decided by the selection and the
    values of the items. *)
Lemma terminate_same_dialogs (w : world) (a1 a2 : app) :
  selected (tree a1) = selected (tree a2) ->
  (forall k, item_values (tree a1) k = item_values (tree a2) k) ->
  exists events,
    trace (snd (terminate_process w a1)) = trace a1 ++ events /\
    trace (snd (terminate_process w a2)) = trace a2 ++ events.
Proof.
  intros Hsel Hval. unfold terminate_process, mbind, get, lift. cbn [fst snd].
  rewrite Hsel. destruct (selected (tree a2)) as [|k rest].
  { eexists. split; reflexivity. }
  rewrite Hval. destruct (item_values (tree a2) k) as [v|e]; cbn [fst snd].
  2:{ exists []. rewrite !app_nil_r. split; reflexivity. }
  unfold emit at 1 3. cbn [fst snd].
  destruct (w_confirm w).
  2:{ eexists. split; reflexivity. }
  unfold mtry_Exception, mbind, lift, emit. cbn [fst snd trace].
  destruct (w_process w (v_pid v)) as [[]|e]; cbn [fst snd trace].
  - destruct (w_terminate w (v_pid v)) as [[]|e]; cbn [fst snd trace].
    + rewrite <- !app_assoc. eexists. split; reflexivity.
    + destruct (exn_cls e); cbn [fst snd trace]; rewrite <- !app_assoc;
        eexists; split; reflexivity.
  - destruct (exn_cls e); cbn [fst snd trace]; rewrite <- !app_assoc;
      eexists; split; reflexivity.
Qed.

(** The selection lists the flagged items of the rows it is asked on. *)
Lemma flagged_In (ks : list iid) (rows : list (iid * values)) (k : iid) :
  In k (flagged ks rows) <-> In k ks /\ In k (map fst rows).
Proof.
  unfold flagged. rewrite filter_In, existsb_exists. split.
  - intros (Hk & y & Hy & E). apply Nat.eqb_eq in E. subst y. tauto.
  - intros (Hk & Hr). split; [exact Hr|]. exists k. split; [exact Hk|].
    apply Nat.eqb_refl.
Qed.

Lemma flagged_flagged (ks : list iid) (rows rows' : list (iid * values)) :
  incl (map fst rows') (map fst rows) ->
  flagged (flagged ks rows) rows' = flagged ks rows'.
Proof.
  intros Hincl. unfold flagged at 1 3. apply filter_ext_in. intros k Hk.
  destruct (existsb (Nat.eqb k) ks) eqn:E.
  - apply existsb_exists. exists k. split; [|apply Nat.eqb_refl].
    apply flagged_In. split; [|apply Hincl, Hk].
    apply existsb_exists in E. destruct E as (y & Hy & E).
    apply Nat.eqb_eq in E. subst y. exact Hy.
  - destruct (existsb (Nat.eqb k) (flagged ks rows)) eqn:E'; [|reflexivity].
    apply existsb_exists in E'. destruct E' as (y & Hy & Ey).
    apply Nat.eqb_eq in Ey. subst y. apply flagged_In in Hy.
    assert (H : existsb (Nat.eqb k) ks = true).
    { apply existsb_exists. exists k. split; [tauto|apply Nat.eqb_refl]. }
    congruence.
Qed.

Lemma flagged_none (rows : list (iid * values)) : flagged [] rows = [].
Proof.
  unfold flagged. induction (map fst rows) as [|k l IH]; [reflexivity|exact IH].
Qed.

Lemma flagged_one (k : iid) (rows : list (iid * values)) :
  NoDup (map fst rows) -> In k (map fst rows) -> flagged [k] rows = [k].
Proof.
  unfold flagged. induction (map fst rows) as [|x l IH]; intros Hnd Hin;
    [destruct Hin|].
  inversion Hnd as [|? ? Hx Hl]; subst. cbn [filter existsb].
  destruct (Nat.eqb_spec x k) as [->|Hne]; cbn [orb].
  - f_equal. clear IH Hin Hnd Hl. induction l as [|y l IH]; [reflexivity|].
    cbn [filter existsb]. destruct (Nat.eqb_spec y k) as [->|Hy]; cbn [orb].
    + exfalso. apply Hx. left. reflexivity.
    + apply IH. intros H. apply Hx. right. exact H.
  - destruct Hin as [->|Hin]; [congruence|]. apply IH; assumption.
Qed.

(** A move lists the same flagged items in the new order. *)
Lemma selection_after_move (ks : list iid) (t : treeview) (k : iid) (i : nat)
    (t' : treeview) :
  selected t = flagged ks (children t) -> move t k i = Ok t' ->
  selected t' = flagged ks (children t').
Proof.
  intros Hs. unfold move. destruct (find_item t k) as [v|] eqn:Ef; [|discriminate].
  intros [= <-]. cbn [selected children]. rewrite Hs. apply flagged_flagged.
  apply find_item_Some in Ef. intros x Hx. apply in_map_iff in Hx.
  destruct Hx as (y & <- & Hy). apply in_map.
  set (others := filter (fun it => negb (Nat.eqb (fst it) k)) (children t)) in *.
  assert (Hperm : Permutation (firstn i others ++ (k, v) :: skipn i others)
                    ((k, v) :: others)).
  { symmetry. eapply Permutation_trans; [|apply Permutation_middle].
    rewrite firstn_skipn. reflexivity. }
  apply (Permutation_in _ Hperm) in Hy. destruct Hy as [<-|Hy]; [exact Ef|].
  apply filter_In in Hy. tauto.
Qed.

Lemma selection_after_sort (ks : list iid) (col : column) (reverse : bool) :
  preserves (fun a => selected (tree a) = flagged ks (children (tree a)))
    (sort_column col reverse).
Proof.
  apply preserves_sort_column.
  - intros k i.
    apply (preserves_on_tree (fun t => selected t = flagged ks (children t))).
    intros t t'. apply selection_after_move.
  - apply (preserves_on_tree (fun t => selected t = flagged ks (children t))).
    intros t t' Ht [= <-]. exact Ht.
Qed.

End SelectionFacts.

(** A sort, unlike a refresh, keeps the selection: after [sort_column] the
    same items are selected, listed in the new display order, and every item
    has the values it had.  When at most one row is selected, the selection
    is therefore the same list and the terminate button shows the same
    dialogs and signals the same process as it would have before the sort;
    with several rows selected, the first of them in the new order is the one
    line 178 reads.  The items of the table are distinct, the cells of a
    numeric column read as numbers, and the selection is in display order, as
    the widget lists it. *)
Theorem sort_keeps_the_selection (col : column) (reverse : bool) (a : app) :
  NoDup (get_children (tree a)) -> numeric_cells col (children (tree a)) ->
  selected (tree a) = flagged (selected (tree a)) (children (tree a)) ->
  selected (tree (snd (sort_column col reverse a))) =
    flagged (selected (tree a))
      (children (tree (snd (sort_column col reverse a)))) /\
  (forall k, In k (selected (tree (snd (sort_column col reverse a)))) <->
             In k (selected (tree a))) /\
  (forall k, item_values (tree (snd (sort_column col reverse a))) k =
             item_values (tree a) k) /\
  ((List.length (selected (tree a)) <= 1)%nat ->
   selected (tree (snd (sort_column col reverse a))) = selected (tree a) /\
   forall w, exists events,
     trace (snd (terminate_process w (snd (sort_column col reverse a)))) =
       trace a ++ events /\
     trace (snd (terminate_process w a)) = trace a ++ events).
Proof.
  intros Hnd Hnum Hord.
  pose proof (selection_after_sort (selected (tree a)) col reverse a Hord) as Hsel.
  destruct (sort_column_spec col reverse a Hnd Hnum)
    as (a' & Hrun & _ & Htrace & _ & Hperm & _).
  rewrite Hrun in *. cbn [snd] in *.
  assert (Hids : forall k, In k (map fst (children (tree a'))) <->
                           In k (map fst (children (tree a)))).
  { intros k. split; apply Permutation_in; apply Permutation_map;
      [exact Hperm|symmetry; exact Hperm]. }
  assert (Hrows : forall k, In k (selected (tree a)) ->
                            In k (map fst (children (tree a)))).
  { intros k Hk. rewrite Hord in Hk. apply flagged_In in Hk. tauto. }
  assert (Hval : forall k, item_values (tree a') k = item_values (tree a) k).
  { intros k. unfold item_values. rewrite (find_item_perm (tree a) (tree a') k Hnd Hperm).
    reflexivity. }
  assert (Hsame : forall k, In k (selected (tree a')) <-> In k (selected (tree a))).
  { intros k. rewrite Hsel, flagged_In, Hids. split; [tauto|].
    intros Hk. split; [exact Hk|apply Hrows, Hk]. }
  split; [exact Hsel|]. split; [exact Hsame|]. split; [exact Hval|].
  intros Hone.
  assert (Heq : selected (tree a') = selected (tree a)).
  { rewrite Hsel. destruct (selected (tree a)) as [|k [|k' rest]] eqn:Es.
    - apply flagged_none.
    - apply flagged_one.
      + apply (Permutation_NoDup (l := map fst (children (tree a)))); [|exact Hnd].
        apply Permutation_map. symmetry. exact Hperm.
      + apply Hids, Hrows. left. reflexivity.
    - cbn [List.length] in Hone. lia. }
  split; [exact Heq|]. intros w.
  destruct (terminate_same_dialogs w a' a Heq Hval) as (events & H1 & H2).
  exists events. rewrite <- Htrace at 1. split; assumption.
Qed.

Lemma sort_keeps_the_selection_witness :
  selected (tree Examples.app_both_selected) = [1%nat; 2%nat] /\
  selected (tree (snd (sort_column CPU false Examples.app_both_selected))) =
    [2%nat; 1%nat] /\
  item_values (tree (snd (sort_column CPU false Examples.app_both_selected))) 1%nat =
    Ok (Values 11 "beta" "100.0" "2.0" "sleeping").
Proof.
  split; [reflexivity|].
  destruct (sort_keeps_the_selection CPU false Examples.app_both_selected)
    as (H1 & _ & H2 & _).
  - repeat constructor; cbn; intuition lia.
  - repeat constructor; cbn [snd]; eexists; split; vm_compute; reflexivity.
  - reflexivity.
  - split; [rewrite H1; vm_compute; reflexivity|rewrite H2; reflexivity].
Defined.

(** The Status column can never be sorted: line 70 binds no command to its
    heading and no method ever binds one, so after any history of the
    interface a click on that heading changes nothing. *)
Theorem status_heading_never_sorts (cores : Z) (acts : list action) :
  click_heading Status (run acts (init cores)) = (Ok tt, run acts (init cores)).
Proof.
  destruct (wf_tree_run acts (init cores) wf_tree_init) as (_ & _ & _ & Hst & _).
  unfold click_heading, mbind, get. cbn [fst snd]. rewrite Hst. reflexivity.
Qed.
